(** * The watchlist edit screen (src/Delete.tsx): reorder and bulk delete

    A shallow embedding of the state that the [Delete] component holds and
    of the handlers that change it: the row toggle of [DeleteRowObserver],
    [selectedCount], the load/cleanup effect, [onDragEnd] and [handleSave];
    then of the memoised [DeleteRow] and of what the screen renders (save
    button, "Loading...", "No items", grid).

    Conventions of the embedding.
    - React state ([useState]), the [useRef] cell and the Legend-State
      observable are fields of one record; a handler is a function on that
      record.  Every handler runs against the state of the latest render,
      i.e. a render completes between two events.
    - An [async] handler is split at its single [await]: the part before it
      runs when the handler is invoked and leaves an entry in [inflight]
      holding what the closure captured; the part after it runs when the
      remote call settles, with the outcome as a boolean.
    - Calls to collaborators (remote services, shared store, console,
      navigation, deferred task) are appended to the [calls] log in the
      order in which they are made. *)

From stdpp Require Import gmap strings list fin_maps.

Open Scope string_scope.
Open Scope list_scope.

(** ** Items *)

(** Modelled from the spec: the declaration of [MarketWatchItem] is in
    store/marketwatch and not part of Delete.tsx.  An item is "an entity
    with a stable unique identity (token), a display symbol, and a display
    name"; the source reads each field through [||], so each may be
    missing. *)
Record MarketWatchItem : Type := {
  token : option string;
  symbol : option string;
  name : option string
}.

(** [s.token || ''] : a missing token and the empty token both give [""]. *)
Definition tokenOf (s : MarketWatchItem) : string :=
  match token s with
  | Some t => t
  | None => ""
  end.

(** [xs.map(s => s.token || '')] *)
Definition tokensOf (xs : list MarketWatchItem) : list string :=
  tokenOf <$> xs.

(** ** The selection map ([deleteMap]) *)

(** [deleteMap[token]?.get() ?? false] *)
Definition isMarked (deleteMap : gmap string bool) (tok : string) : bool :=
  match deleteMap !! tok with
  | Some b => b
  | None => false
  end.

(** [deleteMap[token]?.set(!isMarked)] *)
Definition toggle (tok : string) (deleteMap : gmap string bool)
  : gmap string bool :=
  <[tok := negb (isMarked deleteMap tok)]> deleteMap.

(** [Object.values(deleteMap.get()).filter(Boolean).length] *)
Definition selectedCount (deleteMap : gmap string bool) : nat :=
  length (filter (λ v : bool, v = true) (map_to_list deleteMap).*2).

(** [Object.entries(deleteMap.peek()).filter(([_, value]) => value)
      .map(([key]) => key)].
    JavaScript enumerates own keys in its own order (integer-like keys
    ascending, then the others by insertion) and [gmap] in another; the
    list is used for its length, as a set ([new Set]) and as the payload of
    the remote call, and no property below depends on its order. *)
Definition itemsToDelete (deleteMap : gmap string bool) : list string :=
  (filter (λ kv : string * bool, kv.2 = true) (map_to_list deleteMap)).*1.

(** ** Change detection *)

(** [xs.some((x, i) => p(x, i))], scanning from index [i]. *)
Fixpoint some_from {A : Type} (p : A → nat → bool) (i : nat) (xs : list A)
  : bool :=
  match xs with
  | [] => false
  | x :: xs' => p x i || some_from p (S i) xs'
  end.

Definition some {A : Type} (p : A → nat → bool) (xs : list A) : bool :=
  some_from p 0 xs.

(** [newTokens.some((t, i) => t !== lastOrderRef.current[i])]: reading
    past the end of the array gives [undefined], which differs from every
    string. *)
Definition hasChanged (newTokens lastOrder : list string) : bool :=
  some (λ t i, negb (bool_decide (lastOrder !! i = Some t))) newTokens.

(** ** Screen state and collaborators *)

Record ErrorModal : Type := {
  visible : bool;
  title : string;
  message : string
}.

(** A remote call that has been issued and has not settled, with what the
    suspended handler captured. *)
Inductive InFlight : Type :=
| AwaitRearrange (wid : string) (newOrder : list MarketWatchItem)
| AwaitBulkDelete (wid : string) (captured : list MarketWatchItem)
    (items : list string).

Inductive Call : Type :=
| Call_rearrangeWatchlist (wid : string) (tokens : list string) (user : string)
| Call_bulkDeleteFromWatchlist (wid : string) (items : list string)
    (user : string)
| Call_setData (wid : string) (items : list MarketWatchItem)
| Call_console_error (msg : string)
| Call_goBack
| Call_task_cancel.

Record Sys : Type := {
  (* route.params and the effect's life *)
  watchlistId : string;
  mounted : bool;
  (* component state *)
  stocks : list MarketWatchItem;
  isReady : bool;
  deleteMap : gmap string bool;
  isSaving : bool;
  errorModal : ErrorModal;
  lastOrderRef : list string;
  (* collaborators *)
  marketWatchStore : gmap string (list MarketWatchItem);
  username : string;
  task : option string;
  inflight : list InFlight;
  calls : list Call
}.

Definition set_session (w : string) (b : bool) (s : Sys) : Sys :=
  {| watchlistId := w; mounted := b; stocks := stocks s;
     isReady := isReady s; deleteMap := deleteMap s; isSaving := isSaving s;
     errorModal := errorModal s; lastOrderRef := lastOrderRef s;
     marketWatchStore := marketWatchStore s; username := username s;
     task := task s; inflight := inflight s; calls := calls s |}.

Definition setStocks (v : list MarketWatchItem) (s : Sys) : Sys :=
  {| watchlistId := watchlistId s; mounted := mounted s; stocks := v;
     isReady := isReady s; deleteMap := deleteMap s; isSaving := isSaving s;
     errorModal := errorModal s; lastOrderRef := lastOrderRef s;
     marketWatchStore := marketWatchStore s; username := username s;
     task := task s; inflight := inflight s; calls := calls s |}.

Definition setIsReady (v : bool) (s : Sys) : Sys :=
  {| watchlistId := watchlistId s; mounted := mounted s; stocks := stocks s;
     isReady := v; deleteMap := deleteMap s; isSaving := isSaving s;
     errorModal := errorModal s; lastOrderRef := lastOrderRef s;
     marketWatchStore := marketWatchStore s; username := username s;
     task := task s; inflight := inflight s; calls := calls s |}.

Definition set_deleteMap (v : gmap string bool) (s : Sys) : Sys :=
  {| watchlistId := watchlistId s; mounted := mounted s; stocks := stocks s;
     isReady := isReady s; deleteMap := v; isSaving := isSaving s;
     errorModal := errorModal s; lastOrderRef := lastOrderRef s;
     marketWatchStore := marketWatchStore s; username := username s;
     task := task s; inflight := inflight s; calls := calls s |}.

Definition setIsSaving (v : bool) (s : Sys) : Sys :=
  {| watchlistId := watchlistId s; mounted := mounted s; stocks := stocks s;
     isReady := isReady s; deleteMap := deleteMap s; isSaving := v;
     errorModal := errorModal s; lastOrderRef := lastOrderRef s;
     marketWatchStore := marketWatchStore s; username := username s;
     task := task s; inflight := inflight s; calls := calls s |}.

Definition setErrorModal (v : ErrorModal) (s : Sys) : Sys :=
  {| watchlistId := watchlistId s; mounted := mounted s; stocks := stocks s;
     isReady := isReady s; deleteMap := deleteMap s; isSaving := isSaving s;
     errorModal := v; lastOrderRef := lastOrderRef s;
     marketWatchStore := marketWatchStore s; username := username s;
     task := task s; inflight := inflight s; calls := calls s |}.

Definition set_lastOrderRef (v : list string) (s : Sys) : Sys :=
  {| watchlistId := watchlistId s; mounted := mounted s; stocks := stocks s;
     isReady := isReady s; deleteMap := deleteMap s; isSaving := isSaving s;
     errorModal := errorModal s; lastOrderRef := v;
     marketWatchStore := marketWatchStore s; username := username s;
     task := task s; inflight := inflight s; calls := calls s |}.

Definition set_marketWatchStore (v : gmap string (list MarketWatchItem))
    (s : Sys) : Sys :=
  {| watchlistId := watchlistId s; mounted := mounted s; stocks := stocks s;
     isReady := isReady s; deleteMap := deleteMap s; isSaving := isSaving s;
     errorModal := errorModal s; lastOrderRef := lastOrderRef s;
     marketWatchStore := v; username := username s;
     task := task s; inflight := inflight s; calls := calls s |}.

Definition set_task (v : option string) (s : Sys) : Sys :=
  {| watchlistId := watchlistId s; mounted := mounted s; stocks := stocks s;
     isReady := isReady s; deleteMap := deleteMap s; isSaving := isSaving s;
     errorModal := errorModal s; lastOrderRef := lastOrderRef s;
     marketWatchStore := marketWatchStore s; username := username s;
     task := v; inflight := inflight s; calls := calls s |}.

Definition set_inflight (v : list InFlight) (s : Sys) : Sys :=
  {| watchlistId := watchlistId s; mounted := mounted s; stocks := stocks s;
     isReady := isReady s; deleteMap := deleteMap s; isSaving := isSaving s;
     errorModal := errorModal s; lastOrderRef := lastOrderRef s;
     marketWatchStore := marketWatchStore s; username := username s;
     task := task s; inflight := v; calls := calls s |}.

(** Record one call to a collaborator. *)
Definition call (c : Call) (s : Sys) : Sys :=
  {| watchlistId := watchlistId s; mounted := mounted s; stocks := stocks s;
     isReady := isReady s; deleteMap := deleteMap s; isSaving := isSaving s;
     errorModal := errorModal s; lastOrderRef := lastOrderRef s;
     marketWatchStore := marketWatchStore s; username := username s;
     task := task s; inflight := inflight s; calls := calls s ++ [c] |}.

(** ** Collaborators *)

(** Modelled from the spec: [setData] is defined in store/marketwatch, not
    in Delete.tsx; the spec gives it as
    "setData(watchlistId, orderedItems) -> void (replace)". *)
Definition setData (wid : string) (items : list MarketWatchItem) (s : Sys)
  : Sys :=
  call (Call_setData wid items)
       (set_marketWatchStore (<[wid := items]> (marketWatchStore s)) s).

(** [marketWatchStore.watchlists[watchlistId]?.peek()?.data || []] *)
Definition peekData (wid : string) (s : Sys) : list MarketWatchItem :=
  match marketWatchStore s !! wid with
  | Some data => data
  | None => []
  end.

(** [showError(title, message)] *)
Definition showError (ttl msg : string) (s : Sys) : Sys :=
  setErrorModal {| visible := true; title := ttl; message := msg |} s.

(** The modal's [onClose]. *)
Definition closeModal (s : Sys) : Sys :=
  setErrorModal {| visible := false; title := ""; message := "" |} s.

(** ** The load effect and its cleanup *)

(** The body of [useEffect]: only schedules the deferred task, which
    captures [watchlistId]. *)
Definition effect (wid : string) (s : Sys) : Sys :=
  set_task (Some wid) (set_session wid true s).

(** The callback given to [InteractionManager.runAfterInteractions]; it
    runs only while the task is still pending. *)
Definition runTask (s : Sys) : Sys :=
  match task s with
  | None => s
  | Some wid =>
      let initialData := peekData wid s in
      let s := set_task None s in
      let s := setStocks initialData s in
      let s := set_lastOrderRef (tokensOf initialData) s in
      setIsReady true s
  end.

(** The function returned by the effect. *)
Definition cleanup (s : Sys) : Sys :=
  let s := set_session (watchlistId s) false s in
  let s := set_task None (call Call_task_cancel s) in
  let s := setStocks [] s in
  let s := setIsReady false s in
  set_deleteMap ∅ s.

(** ** [onDragEnd] *)

Definition onDragEnd (newOrder : list MarketWatchItem) (s : Sys) : Sys :=
  let newTokens := tokensOf newOrder in
  if hasChanged newTokens (lastOrderRef s) then
    let s := setStocks newOrder s in
    let s := set_lastOrderRef newTokens s in
    let s :=
      call (Call_rearrangeWatchlist (watchlistId s) newTokens (username s)) s in
    set_inflight (inflight s ++ [AwaitRearrange (watchlistId s) newOrder]) s
  else s.

(** After [await rearrangeWatchlist(...)]: [ok] tells whether the promise
    was fulfilled. *)
Definition onDragEnd_settled (wid : string) (newOrder : list MarketWatchItem)
    (ok : bool) (s : Sys) : Sys :=
  if ok then setData wid newOrder s
  else call (Call_console_error "Error rearranging:") s.

(** ** [handleSave] *)

Definition handleSave (s : Sys) : Sys :=
  let items := itemsToDelete (deleteMap s) in
  if isSaving s || (length items =? 0)%nat then s
  else
    let s := setIsSaving true s in
    let s :=
      call (Call_bulkDeleteFromWatchlist (watchlistId s) items (username s)) s in
    set_inflight (inflight s ++ [AwaitBulkDelete (watchlistId s) (stocks s) items]) s.

(** After [await bulkDeleteFromWatchlist(...)].  [captured] is the [stocks]
    of the render in which the handler was created. *)
Definition handleSave_settled (wid : string) (captured : list MarketWatchItem)
    (items : list string) (ok : bool) (s : Sys) : Sys :=
  let s :=
    if ok then
      let deleteSet : gset string := list_to_set items in
      let updated := filter (λ it, tokenOf it ∉ deleteSet) captured in
      let s := setStocks updated s in
      let s := setData wid updated s in
      let s := set_lastOrderRef (tokensOf updated) s in
      let s := set_deleteMap ∅ s in
      call Call_goBack s
    else
      let s := call (Call_console_error "Error deleting:") s in
      showError "Error" "Failed to delete items" s in
  setIsSaving false s.

(** The [n]-th remote call in flight settles. *)
Definition settle (n : nat) (ok : bool) (s : Sys) : Sys :=
  match inflight s !! n with
  | None => s
  | Some f =>
      let s := set_inflight (delete n (inflight s)) s in
      match f with
      | AwaitRearrange wid newOrder => onDragEnd_settled wid newOrder ok s
      | AwaitBulkDelete wid captured items =>
          handleSave_settled wid captured items ok s
      end
  end.

(** ** Events and reachable states *)

Inductive Event : Type :=
| Enter (wid : string)
| RunTask
| Exit
| Toggle (item : MarketWatchItem)
| DragEnd (newOrder : list MarketWatchItem)
| Save
| CloseModal
| Settle (n : nat) (ok : bool).

(** An event that cannot happen in the current state gives [None]: React
    runs the cleanup of an effect before it runs the effect again, the
    deferred task runs once, and only a call in flight can settle. *)
Definition step (e : Event) (s : Sys) : option Sys :=
  match e with
  | Enter wid => if mounted s then None else Some (effect wid s)
  | RunTask =>
      match task s with
      | Some _ => Some (runTask s)
      | None => None
      end
  | Exit => if mounted s then Some (cleanup s) else None
  | Toggle item =>
      Some (set_deleteMap (toggle (tokenOf item) (deleteMap s)) s)
  | DragEnd newOrder => Some (onDragEnd newOrder s)
  | Save => Some (handleSave s)
  | CloseModal => Some (closeModal s)
  | Settle n ok =>
      match inflight s !! n with
      | Some _ => Some (settle n ok s)
      | None => None
      end
  end.

Fixpoint run (es : list Event) (s : Sys) : option Sys :=
  match es with
  | [] => Some s
  | e :: es' =>
      match step e s with
      | Some s' => run es' s'
      | None => None
      end
  end.

(** The state before the first render's effect: [useState([])],
    [useState(false)], [useObservable({})], [useRef([])]. *)
Definition initial (store : gmap string (list MarketWatchItem))
    (user : string) : Sys :=
  {| watchlistId := ""; mounted := false; stocks := [];
     isReady := false; deleteMap := ∅; isSaving := false;
     errorModal := {| visible := false; title := ""; message := "" |};
     lastOrderRef := [];
     marketWatchStore := store; username := user;
     task := None; inflight := []; calls := [] |}.

Inductive Reachable : Sys → Prop :=
| Reachable_initial store user : Reachable (initial store user)
| Reachable_step e s s' : Reachable s → step e s = Some s' → Reachable s'.

(** ** A concrete session

    Watchlist ["w1"] holds the items A, B, C, D in the shared store; the
    states below are the ones the screen goes through when it is opened on
    it.  They are the inputs of the examples further down. *)

Definition item (t : string) : MarketWatchItem :=
  {| token := Some t; symbol := Some t; name := Some t |}.

Definition store_ABCD : gmap string (list MarketWatchItem) :=
  {[ "w1" := [item "A"; item "B"; item "C"; item "D"] ]}.

Definition store_AB : gmap string (list MarketWatchItem) :=
  {[ "w1" := [item "A"; item "B"] ]}.

(** Opened and loaded. *)
Definition loaded_ABCD : Sys :=
  runTask (effect "w1" (initial store_ABCD "alice")).

Definition loaded_AB : Sys :=
  runTask (effect "w1" (initial store_AB "alice")).

(** A and C marked for deletion. *)
Definition marked_AC : Sys :=
  set_deleteMap (toggle "C" (toggle "A" (deleteMap loaded_ABCD))) loaded_ABCD.

(** Save pressed: the bulk delete is in flight. *)
Definition saving_AC : Sys := handleSave marked_AC.

(** B dragged above A: the rearrange call is in flight. *)
Definition dragged_BA : Sys := onDragEnd [item "B"; item "A"] loaded_AB.

(** D, C, B, A dragged into that order while the bulk delete of A and C
    is still in flight. *)
Definition dragged_while_saving : Sys :=
  onDragEnd [item "D"; item "C"; item "B"; item "A"] saving_AC.

(** The screen left after [loaded_AB]: the cleanup has run. *)
Definition closed_AB : Sys := cleanup loaded_AB.

(** Closed with A and C still marked, then opened again on ["w1"]. *)
Definition reopened_ABCD : Sys := runTask (effect "w1" (cleanup marked_AC)).

(** ** The order baseline *)

(** What links [lastOrderRef] to [stocks] in every reachable state: either
    the baseline is the token sequence of the collection, or the cleanup has
    emptied the collection and the list is not shown. *)
Definition baseline_ok (s : Sys) : Prop :=
  lastOrderRef s = tokensOf (stocks s) ∨ (stocks s = [] ∧ isReady s = false).

(** ** Rows: [DeleteRow] and [DeleteRowObserver] *)

(** [item.symbol || 'N/A']: the empty string is falsy too. *)
Definition rowSymbol (it : MarketWatchItem) : string :=
  match symbol it with
  | Some sy => if decide (sy = "") then "N/A" else sy
  | None => "N/A"
  end.

(** [item.name || ''] *)
Definition rowName (it : MarketWatchItem) : string :=
  match name it with
  | Some n => n
  | None => ""
  end.

(** The props of [DeleteRow].  [ThemeColors] is declared in
    store/themeStore; the row only passes themes on and compares them with
    [===], so the type is a parameter. *)
Record DeleteRowProps (Theme : Type) : Type := {
  row_item : MarketWatchItem;
  row_isMarked : bool;
  row_onToggle : gmap string bool → gmap string bool;
  row_theme : Theme
}.
Arguments row_item {Theme} _.
Arguments row_isMarked {Theme} _.
Arguments row_onToggle {Theme} _.
Arguments row_theme {Theme} _.

(** The comparison given to [memo]: [true] means that the row is not
    rendered again. *)
Definition arePropsEqual {Theme : Type} `{EqDecision Theme}
    (prevProps nextProps : DeleteRowProps Theme) : bool :=
  bool_decide (token (row_item prevProps) = token (row_item nextProps))
  && bool_decide (row_isMarked prevProps = row_isMarked nextProps)
  && bool_decide (row_theme prevProps = row_theme nextProps).

(** The props with which a memoised row stays on screen when its parent
    renders it again. *)
Definition memo {Theme : Type} `{EqDecision Theme}
    (prevProps nextProps : DeleteRowProps Theme) : DeleteRowProps Theme :=
  if arePropsEqual prevProps nextProps then prevProps else nextProps.

(** The callback [() => deleteMap[token]?.set(!isMarked)]: [token] and
    [isMarked] are those of the render that created it. *)
Definition rowToggle (tok : string) (marked : bool)
    (deleteMap : gmap string bool) : gmap string bool :=
  <[tok := negb marked]> deleteMap.

(** What [DeleteRowObserver] hands to [DeleteRow]. *)
Definition DeleteRowObserver {Theme : Type} (it : MarketWatchItem)
    (deleteMap : gmap string bool) (theme : Theme) : DeleteRowProps Theme :=
  let tok := tokenOf it in
  let marked := isMarked deleteMap tok in
  {| row_item := it; row_isMarked := marked;
     row_onToggle := rowToggle tok marked; row_theme := theme |}.

(** ** What the screen shows *)

(** The save button of the header. *)
Record SaveButton : Type := {
  disabled : bool;
  label : string
}.

(** [selectedCount > 0 && <Pressable ... disabled={isSaving}>] *)
Definition header (s : Sys) : option SaveButton :=
  if (0 <? selectedCount (deleteMap s))%nat then
    Some {| disabled := isSaving s;
            label := if isSaving s then "Saving..." else "Save" |}
  else None.

(** Below the header: "Loading...", "No items in this watchlist", or the
    sortable grid over [stocks]. *)
Inductive Body : Type :=
| Loading
| NoItems
| Grid (data : list MarketWatchItem).

Definition body (s : Sys) : Body :=
  if negb (isReady s) then Loading
  else if (length (stocks s) =? 0)%nat then NoItems
  else Grid (stocks s).

#[global] Instance MarketWatchItem_eq_dec : EqDecision MarketWatchItem.
Proof. solve_decision. Defined.

(** The events that the rendered screen can deliver: a row can be toggled
    and a drag can end only on the grid, the save button can be pressed
    only when it is shown and not disabled, the modal can be closed only
    when it is visible.  The lifecycle and the remote services do not
    depend on what is shown. *)
Definition ui_enabled (e : Event) (s : Sys) : bool :=
  match e with
  | Enter _ | RunTask | Exit | Settle _ _ => true
  | Toggle it =>
      mounted s
      && match body s with
         | Grid data => bool_decide (it ∈ data)
         | _ => false
         end
  | DragEnd _ =>
      mounted s
      && match body s with
         | Grid _ => true
         | _ => false
         end
  | Save =>
      mounted s
      && match header s with
         | Some b => negb (disabled b)
         | None => false
         end
  | CloseModal => mounted s && visible (errorModal s)
  end.

Inductive UiReachable : Sys → Prop :=
| UiReachable_initial store user : UiReachable (initial store user)
| UiReachable_step e s s' :
    UiReachable s → ui_enabled e s = true → step e s = Some s' →
    UiReachable s'.

(** ** Counting calls *)

Definition isBulkDelete (f : InFlight) : bool :=
  match f with
  | AwaitBulkDelete _ _ _ => true
  | AwaitRearrange _ _ => false
  end.

(** The number of bulk deletes in flight. *)
Definition bulkInFlight (l : list InFlight) : nat :=
  length (filter (λ f, isBulkDelete f = true) l).

Definition countCalls (p : Call → bool) (cs : list Call) : nat :=
  length (filter (λ c, p c = true) cs).

Definition isRemoteCall (c : Call) : bool :=
  match c with
  | Call_rearrangeWatchlist _ _ _ | Call_bulkDeleteFromWatchlist _ _ _ => true
  | _ => false
  end.

Definition isBulkDeleteCall (c : Call) : bool :=
  match c with
  | Call_bulkDeleteFromWatchlist _ _ _ => true
  | _ => false
  end.

Definition isSetData (c : Call) : bool :=
  match c with
  | Call_setData _ _ => true
  | _ => false
  end.

Definition isConsoleError (c : Call) : bool :=
  match c with
  | Call_console_error _ => true
  | _ => false
  end.

Definition isDeleteError (c : Call) : bool :=
  match c with
  | Call_console_error msg => bool_decide (msg = "Error deleting:")
  | _ => false
  end.

Definition isGoBack (c : Call) : bool :=
  match c with
  | Call_goBack => true
  | _ => false
  end.

(** The two values that [errorModal] ever takes. *)
Definition modal_closed : ErrorModal :=
  {| visible := false; title := ""; message := "" |}.

Definition modal_delete_failed : ErrorModal :=
  {| visible := true; title := "Error"; message := "Failed to delete items" |}.

(** * Properties *)

(** ** Change detection *)

Section ChangeDetection.
Implicit Types newTokens lastOrder : list string.

Lemma drop_lookup_cons lastOrder i t :
  lastOrder !! i = Some t → drop i lastOrder = t :: drop (S i) lastOrder.
Proof.
  revert i. induction lastOrder as [|x l IH]; intros [|i] H; simplify_eq/=.
  - by rewrite drop_0.
  - by apply IH.
Qed.

Lemma drop_head_lookup lastOrder i t rest :
  drop i lastOrder = t :: rest →
  lastOrder !! i = Some t ∧ drop (S i) lastOrder = rest.
Proof.
  revert i. induction lastOrder as [|x l IH]; intros [|i] H; simplify_eq/=.
  - by rewrite drop_0.
  - by apply IH.
Qed.

(** The scan from index [i] finds no difference exactly when the
    candidate is an initial segment of what remains of the baseline. *)
Lemma some_from_unchanged newTokens lastOrder i :
  some_from (λ t j, negb (bool_decide (lastOrder !! j = Some t))) i newTokens
    = false
  ↔ newTokens `prefix_of` drop i lastOrder.
Proof.
  revert i. induction newTokens as [|t ts IH]; intros i; simpl.
  - split; [intros _; apply prefix_nil | done].
  - rewrite orb_false_iff, negb_false_iff, bool_decide_eq_true, IH. split.
    + intros [Hi [k Hk]]. exists k.
      rewrite (drop_lookup_cons _ _ _ Hi), Hk. done.
    + intros [k Hk]. simpl in Hk.
      apply drop_head_lookup in Hk as [Hi Hk]. split; [done|]. by exists k.
Qed.

Lemma hasChanged_false_iff newTokens lastOrder :
  hasChanged newTokens lastOrder = false ↔ newTokens `prefix_of` lastOrder.
Proof.
  unfold hasChanged, some. rewrite some_from_unchanged. by rewrite drop_0.
Qed.

Lemma prefix_or_differs newTokens lastOrder :
  newTokens `prefix_of` lastOrder
  ∨ ∃ i t, newTokens !! i = Some t ∧ lastOrder !! i ≠ Some t.
Proof.
  revert lastOrder. induction newTokens as [|t ts IH]; intros l.
  - left. apply prefix_nil.
  - destruct l as [|x l].
    + right. by exists 0, t.
    + destruct (decide (x = t)) as [->|Hne].
      * destruct (IH l) as [Hp|(i & u & H1 & H2)].
        -- left. by apply prefix_cons.
        -- right. by exists (S i), u.
      * right. exists 0, t. simpl. split; congruence.
Qed.

Lemma hasChanged_true_iff newTokens lastOrder :
  hasChanged newTokens lastOrder = true
  ↔ ∃ i t, newTokens !! i = Some t ∧ lastOrder !! i ≠ Some t.
Proof.
  rewrite <- not_false_iff_true, hasChanged_false_iff. split.
  - intros Hnp. by destruct (prefix_or_differs newTokens lastOrder).
  - intros (i & t & H1 & H2) [k ->].
    apply H2. by apply lookup_app_l_Some.
Qed.

Lemma hasChanged_same lastOrder : hasChanged lastOrder lastOrder = false.
Proof. by apply hasChanged_false_iff. Qed.

Lemma hasChanged_longer newTokens lastOrder :
  length lastOrder < length newTokens → hasChanged newTokens lastOrder = true.
Proof.
  intros Hlen. apply not_false_iff_true. rewrite hasChanged_false_iff.
  intros Hp. apply prefix_length in Hp. lia.
Qed.
End ChangeDetection.

(** ** The reorder handler *)

Lemma onDragEnd_changed s newOrder :
  hasChanged (tokensOf newOrder) (lastOrderRef s) = true →
  onDragEnd newOrder s =
    set_inflight (inflight s ++ [AwaitRearrange (watchlistId s) newOrder])
      (call (Call_rearrangeWatchlist (watchlistId s) (tokensOf newOrder)
               (username s))
         (set_lastOrderRef (tokensOf newOrder) (setStocks newOrder s))).
Proof. intros H. unfold onDragEnd. by rewrite H. Qed.

Lemma onDragEnd_unchanged s newOrder :
  hasChanged (tokensOf newOrder) (lastOrderRef s) = false →
  onDragEnd newOrder s = s.
Proof. intros H. unfold onDragEnd. by rewrite H. Qed.

Lemma settle_lookup s n ok f :
  inflight s !! n = Some f →
  settle n ok s =
    let s' := set_inflight (delete n (inflight s)) s in
    match f with
    | AwaitRearrange wid newOrder => onDragEnd_settled wid newOrder ok s'
    | AwaitBulkDelete wid captured items =>
        handleSave_settled wid captured items ok s'
    end.
Proof. intros H. unfold settle. by rewrite H. Qed.

Lemma delete_last_app {A} (l : list A) (x : A) : delete (length l) (l ++ [x]) = l.
Proof. induction l as [|y l IH]; simpl; [done | by rewrite IH]. Qed.

Lemma lookup_last_app {A} (l : list A) (x : A) : (l ++ [x]) !! length l = Some x.
Proof. induction l as [|y l IH]; simpl; done. Qed.

(** C1.  A candidate order whose token sequence equals LastConfirmedOrder
    position by position leaves the whole state as it was: neither the
    collection nor the baseline changes, no call is logged (no rearrange,
    no setData), and nothing is left in flight. *)
Theorem onDragEnd_same_order_noop (s : Sys) (newOrder : list MarketWatchItem) :
  tokensOf newOrder = lastOrderRef s → onDragEnd newOrder s = s.
Proof.
  intros Heq. apply onDragEnd_unchanged. rewrite Heq. apply hasChanged_same.
Qed.

Lemma onDragEnd_same_order_noop_witness :
  tokensOf [item "A"; item "B"] = lastOrderRef loaded_AB
  ∧ onDragEnd [item "A"; item "B"] loaded_AB = loaded_AB.
Proof.
  split; [reflexivity|].
  apply (onDragEnd_same_order_noop loaded_AB [item "A"; item "B"]).
  reflexivity.
Defined.

(** What the handler does once it has detected a change at position [i]:
    the candidate and its tokens are stored, the rearrange call is issued
    and left in flight, and the shared store is written only when that call
    succeeds. *)
Lemma onDragEnd_detected_change (s : Sys) (newOrder : list MarketWatchItem)
    (i : nat) (t : string) :
  tokensOf newOrder !! i = Some t →
  lastOrderRef s !! i ≠ Some t →
  let s1 := onDragEnd newOrder s in
  let s2 := settle (length (inflight s)) true s1 in
  (stocks s1 = newOrder
   ∧ lastOrderRef s1 = tokensOf newOrder
   ∧ inflight s1 = inflight s ++ [AwaitRearrange (watchlistId s) newOrder]
   ∧ calls s1 =
       calls s ++ [Call_rearrangeWatchlist (watchlistId s) (tokensOf newOrder)
                     (username s)]
   ∧ marketWatchStore s1 = marketWatchStore s)
  ∧ (marketWatchStore s2 = <[watchlistId s := newOrder]> (marketWatchStore s)
     ∧ calls s2 = calls s1 ++ [Call_setData (watchlistId s) newOrder]
     ∧ stocks s2 = newOrder
     ∧ lastOrderRef s2 = tokensOf newOrder
     ∧ inflight s2 = inflight s).
Proof.
  intros Hi Hne s1 s2.
  assert (Hch : hasChanged (tokensOf newOrder) (lastOrderRef s) = true)
    by (apply hasChanged_true_iff; eauto).
  subst s2 s1. rewrite (onDragEnd_changed _ _ Hch).
  split; [done|].
  erewrite settle_lookup by apply lookup_last_app.
  simpl. rewrite delete_last_app. done.
Qed.

(** C10.  Change detection looks at the candidate's positions only.  A
    candidate whose tokens are a strict prefix of LastConfirmedOrder leaves
    the whole state as it was (no mutation, no call); a candidate strictly
    longer than LastConfirmedOrder is always detected as changed and is
    applied and sent to the rearrange service. *)
Theorem onDragEnd_scans_candidate_positions (s : Sys)
    (newOrder : list MarketWatchItem) :
  (∀ rest : list string,
     rest ≠ [] → lastOrderRef s = tokensOf newOrder ++ rest →
     onDragEnd newOrder s = s)
  ∧ (length (lastOrderRef s) < length newOrder →
     hasChanged (tokensOf newOrder) (lastOrderRef s) = true
     ∧ stocks (onDragEnd newOrder s) = newOrder
     ∧ lastOrderRef (onDragEnd newOrder s) = tokensOf newOrder
     ∧ calls (onDragEnd newOrder s) =
         calls s ++ [Call_rearrangeWatchlist (watchlistId s)
                       (tokensOf newOrder) (username s)]).
Proof.
  split.
  - intros rest _ Hlast. apply onDragEnd_unchanged.
    apply hasChanged_false_iff. by exists rest.
  - intros Hlen.
    assert (Hch : hasChanged (tokensOf newOrder) (lastOrderRef s) = true).
    { apply hasChanged_longer. unfold tokensOf. by rewrite length_fmap. }
    by rewrite (onDragEnd_changed _ _ Hch).
Qed.

Lemma onDragEnd_scans_candidate_positions_witness :
  onDragEnd [item "A"] loaded_AB = loaded_AB
  ∧ stocks (onDragEnd [item "A"; item "B"; item "C"] loaded_AB)
      = [item "A"; item "B"; item "C"].
Proof.
  split.
  - apply (proj1 (onDragEnd_scans_candidate_positions loaded_AB [item "A"])
             ["B"]); [discriminate | reflexivity].
  - apply (proj2 (onDragEnd_scans_candidate_positions loaded_AB
                    [item "A"; item "B"; item "C"])).
    vm_compute. lia.
Defined.

(** C5.  When the rearrange call fails, the only effects are one line on
    the console and the call leaving the in-flight list: the collection and
    LastConfirmedOrder keep the optimistic order, the error modal is not
    touched, and the shared store is neither written nor called. *)
Theorem rearrange_failure_only_logged (s : Sys) (n : nat) (wid : string)
    (newOrder : list MarketWatchItem) :
  inflight s !! n = Some (AwaitRearrange wid newOrder) →
  let s' := settle n false s in
  stocks s' = stocks s
  ∧ lastOrderRef s' = lastOrderRef s
  ∧ errorModal s' = errorModal s
  ∧ marketWatchStore s' = marketWatchStore s
  ∧ calls s' = calls s ++ [Call_console_error "Error rearranging:"]
  ∧ deleteMap s' = deleteMap s
  ∧ isSaving s' = isSaving s
  ∧ isReady s' = isReady s
  ∧ inflight s' = delete n (inflight s).
Proof.
  intros Hn s'. subst s'. rewrite (settle_lookup _ _ _ _ Hn). done.
Qed.

Lemma rearrange_failure_only_logged_witness :
  inflight dragged_BA !! 0 = Some (AwaitRearrange "w1" [item "B"; item "A"])
  ∧ stocks (settle 0 false dragged_BA) = [item "B"; item "A"]
  ∧ lastOrderRef (settle 0 false dragged_BA) = ["B"; "A"]
  ∧ visible (errorModal (settle 0 false dragged_BA)) = false
  ∧ marketWatchStore (settle 0 false dragged_BA) !! "w1"
      = Some [item "A"; item "B"].
Proof.
  pose proof (rearrange_failure_only_logged dragged_BA 0 "w1"
                [item "B"; item "A"] eq_refl) as H.
  cbv zeta in H. destruct H as (H1 & H2 & H3 & H4 & _).
  split; [reflexivity|].
  split; [rewrite H1; reflexivity|].
  split; [rewrite H2; reflexivity|].
  split; [rewrite H3; reflexivity|].
  rewrite H4. reflexivity.
Defined.

(** ** The selection map *)

Section Selection.
Implicit Types (m : gmap string bool) (k : string).

Local Abbreviation marked := (λ kv : string * bool, kv.2 = true).

Lemma filter_snd_true (l : list (string * bool)) :
  filter (λ v : bool, v = true) l.*2 = (filter marked l).*2.
Proof.
  induction l as [|[k b] l IH]; [done|].
  rewrite fmap_cons, !filter_cons. simpl.
  destruct (decide (b = true)); simpl; by rewrite IH.
Qed.

Lemma selectedCount_itemsToDelete m :
  selectedCount m = length (itemsToDelete m).
Proof.
  unfold selectedCount, itemsToDelete.
  by rewrite filter_snd_true, !length_fmap.
Qed.

Lemma elem_of_itemsToDelete m k : k ∈ itemsToDelete m ↔ m !! k = Some true.
Proof.
  unfold itemsToDelete. rewrite list_elem_of_fmap. split.
  - intros ([k' b] & -> & Hin). apply list_elem_of_filter in Hin as [Hb Hin].
    simpl in *. subst b. by apply elem_of_map_to_list.
  - intros Hk. exists (k, true). split; [done|].
    apply list_elem_of_filter. split; [done|]. by apply elem_of_map_to_list.
Qed.

Lemma NoDup_itemsToDelete m : NoDup (itemsToDelete m).
Proof.
  unfold itemsToDelete.
  eapply sublist_NoDup; [apply (NoDup_fst_map_to_list m)|].
  apply fmap_sublist, sublist_filter.
Qed.

Lemma itemsToDelete_nil m :
  itemsToDelete m = [] ↔ ∀ k, m !! k ≠ Some true.
Proof.
  split.
  - intros Hnil k Hk. apply elem_of_itemsToDelete in Hk.
    rewrite Hnil in Hk. by apply elem_of_nil in Hk.
  - intros Hno. destruct (itemsToDelete m) as [|k l] eqn:E; [done|].
    exfalso. apply (Hno k), elem_of_itemsToDelete. rewrite E. by left.
Qed.

(** The number of [true] entries, counted on the map itself. *)
Lemma selectedCount_size m : selectedCount m = size (filter marked m).
Proof.
  rewrite selectedCount_itemsToDelete. unfold itemsToDelete.
  rewrite length_fmap, <- length_map_to_list.
  rewrite (map_filter_alt marked m).
  rewrite map_to_list_to_map; [done|].
  eapply sublist_NoDup; [apply (NoDup_fst_map_to_list m)|].
  apply fmap_sublist, sublist_filter.
Qed.

Lemma isMarked_true m k : isMarked m k = true ↔ m !! k = Some true.
Proof. unfold isMarked. destruct (m !! k) as [[]|]; naive_solver. Qed.

Lemma isMarked_toggle m k : isMarked (toggle k m) k = negb (isMarked m k).
Proof. unfold toggle at 1, isMarked at 1. by rewrite lookup_insert_eq. Qed.

Lemma lookup_toggle_ne m k k' : k' ≠ k → toggle k m !! k' = m !! k'.
Proof. intros. unfold toggle. by rewrite lookup_insert_ne. Qed.

(** Marking a row adds one to the count, unmarking takes one away. *)
Lemma selectedCount_toggle m k :
  selectedCount (toggle k m) =
    if isMarked m k then pred (selectedCount m) else S (selectedCount m).
Proof.
  rewrite !selectedCount_size. unfold toggle.
  destruct (isMarked m k) eqn:E; simpl.
  - apply isMarked_true in E.
    rewrite map_filter_insert_False by done.
    rewrite map_filter_delete, map_size_delete_Some; [done|].
    exists true. by apply map_lookup_filter_Some.
  - rewrite map_filter_insert_True by done.
    rewrite map_size_insert_None; [done|].
    apply map_lookup_filter_None. right. intros b Hb Hm.
    simpl in Hm. subst b.
    apply (proj2 (isMarked_true m k)) in Hb. congruence.
Qed.
End Selection.

(** C7.  [selectedCount] is the number of entries of the map whose value is
    [true]; a toggle negates the mark of its identity (an absent identity
    becomes [true]) and leaves the others alone; two toggles of the same
    identity give back its mark, and with it the count. *)
Theorem selection_count_and_toggle (m : gmap string bool) (k : string) :
  selectedCount m = size (filter (λ kv : string * bool, kv.2 = true) m)
  ∧ isMarked (toggle k m) k = negb (isMarked m k)
  ∧ (m !! k = None → toggle k m !! k = Some true)
  ∧ (∀ k', k' ≠ k → toggle k m !! k' = m !! k')
  ∧ isMarked (toggle k (toggle k m)) k = isMarked m k
  ∧ (∀ b, m !! k = Some b → toggle k (toggle k m) = m)
  ∧ selectedCount (toggle k (toggle k m)) = selectedCount m.
Proof.
  split; [apply selectedCount_size|].
  split; [apply isMarked_toggle|].
  split.
  { intros Hk. unfold toggle, isMarked. rewrite Hk. apply lookup_insert_eq. }
  split; [intros k' Hk'; by apply lookup_toggle_ne|].
  split; [by rewrite !isMarked_toggle, negb_involutive|].
  split.
  { intros b Hb. unfold toggle at 1. rewrite isMarked_toggle, negb_involutive.
    unfold toggle. rewrite insert_insert_eq. apply insert_id.
    unfold isMarked. by rewrite Hb. }
  rewrite !selectedCount_toggle, isMarked_toggle.
  destruct (isMarked m k) eqn:E; simpl; [|done].
  assert (k ∈ itemsToDelete m) as Hin
    by (by apply elem_of_itemsToDelete, isMarked_true).
  rewrite selectedCount_itemsToDelete.
  destruct (itemsToDelete m); [by apply elem_of_nil in Hin | done].
Qed.

Lemma selection_count_and_toggle_witness :
  toggle "A" ∅ !! "A" = Some true
  ∧ toggle "A" (toggle "A" {[ "A" := true ]}) = ({[ "A" := true ]} : gmap string bool)
  ∧ toggle "A" {[ "B" := true ]} !! "B" = Some true.
Proof.
  pose proof (selection_count_and_toggle ∅ "A") as (_ & _ & H3 & _).
  pose proof (selection_count_and_toggle {[ "A" := true ]} "A")
    as (_ & _ & _ & _ & _ & H6 & _).
  pose proof (selection_count_and_toggle {[ "B" := true ]} "A")
    as (_ & _ & _ & H4 & _).
  split; [apply H3; reflexivity|].
  split; [apply (H6 true); reflexivity|].
  rewrite (H4 "B"); [reflexivity | discriminate].
Defined.

(** ** The bulk-delete handler *)

Lemma handleSave_guard_passed s :
  isSaving s = false → itemsToDelete (deleteMap s) ≠ [] →
  handleSave s =
    set_inflight
      (inflight s ++ [AwaitBulkDelete (watchlistId s) (stocks s)
                        (itemsToDelete (deleteMap s))])
      (call (Call_bulkDeleteFromWatchlist (watchlistId s)
               (itemsToDelete (deleteMap s)) (username s))
         (setIsSaving true s)).
Proof.
  intros Hs Hne. unfold handleSave. rewrite Hs.
  destruct (itemsToDelete (deleteMap s)); done.
Qed.

Lemma filter_deleteSet (items : list string) (xs : list MarketWatchItem) :
  filter (λ it, tokenOf it ∉ (list_to_set items : gset string)) xs
  = filter (λ it, tokenOf it ∉ items) xs.
Proof.
  apply list_filter_iff. intros it. by rewrite elem_of_list_to_set.
Qed.

(** C6.  Invoked while a save is in flight, or with no identity marked,
    [handleSave] leaves the whole state as it was: no field changes, no
    call is logged and nothing is added to the calls in flight. *)
Theorem handleSave_guard_noop (s : Sys) :
  isSaving s = true ∨ itemsToDelete (deleteMap s) = [] → handleSave s = s.
Proof.
  intros [Hs|He]; unfold handleSave.
  - by rewrite Hs.
  - rewrite He. simpl. by rewrite orb_true_r.
Qed.

Lemma handleSave_guard_noop_witness :
  (isSaving saving_AC = true ∧ handleSave saving_AC = saving_AC)
  ∧ (itemsToDelete (deleteMap loaded_ABCD) = []
     ∧ handleSave loaded_ABCD = loaded_ABCD).
Proof.
  split; (split; [reflexivity|]).
  - apply (handleSave_guard_noop saving_AC). left. reflexivity.
  - apply (handleSave_guard_noop loaded_ABCD). right. reflexivity.
Defined.

(** What the success branch does to any state in which the call is in
    flight: the survivors are taken from the collection the handler
    captured when it was invoked. *)
Lemma settle_bulk_delete_ok s n wid captured items :
  inflight s !! n = Some (AwaitBulkDelete wid captured items) →
  let updated := filter (λ it, tokenOf it ∉ items) captured in
  settle n true s =
    setIsSaving false
      (call Call_goBack
         (set_deleteMap ∅
            (set_lastOrderRef (tokensOf updated)
               (setData wid updated
                  (setStocks updated
                     (set_inflight (delete n (inflight s)) s)))))).
Proof.
  intros Hn updated. subst updated. rewrite (settle_lookup _ _ _ _ Hn).
  simpl. unfold handleSave_settled. by rewrite filter_deleteSet.
Qed.

(** When nothing happens between the press on the save button and the
    success of the remote call, the collection becomes its items whose
    identity is not in the snapshot, in their former relative order; that
    list is written to the shared store, LastConfirmedOrder follows it, the
    selection map is emptied, the saving flag is released and the host is
    told to go back. *)
Lemma bulk_delete_success (s : Sys) :
  isSaving s = false →
  itemsToDelete (deleteMap s) ≠ [] →
  let items := itemsToDelete (deleteMap s) in
  let s' := settle (length (inflight s)) true (handleSave s) in
  stocks s' = filter (λ it, tokenOf it ∉ items) (stocks s)
  ∧ stocks s' `sublist_of` stocks s
  ∧ (∀ it, it ∈ stocks s'
           ↔ it ∈ stocks s ∧ isMarked (deleteMap s) (tokenOf it) = false)
  ∧ marketWatchStore s' = <[watchlistId s := stocks s']> (marketWatchStore s)
  ∧ calls s' =
      calls s ++ [Call_bulkDeleteFromWatchlist (watchlistId s) items (username s);
                  Call_setData (watchlistId s) (stocks s');
                  Call_goBack]
  ∧ lastOrderRef s' = tokensOf (stocks s')
  ∧ deleteMap s' = ∅
  ∧ isSaving s' = false
  ∧ inflight s' = inflight s.
Proof.
  intros Hs Hne items s'. subst s' items.
  rewrite (handleSave_guard_passed _ Hs Hne).
  erewrite settle_bulk_delete_ok by apply lookup_last_app.
  simpl. rewrite delete_last_app.
  split; [done|]. split; [apply sublist_filter|].
  split.
  { intros it. rewrite list_elem_of_filter, elem_of_itemsToDelete.
    rewrite <- isMarked_true, not_true_iff_false. tauto. }
  split; [done|]. split; [by rewrite <- !app_assoc|]. done.
Qed.

Lemma bulk_delete_success_witness :
  stocks marked_AC = [item "A"; item "B"; item "C"; item "D"]
  ∧ (∀ k, k ∈ itemsToDelete (deleteMap marked_AC) ↔ k = "A" ∨ k = "C")
  ∧ stocks (settle 0 true (handleSave marked_AC)) = [item "B"; item "D"]
  ∧ deleteMap (settle 0 true (handleSave marked_AC)) = ∅
  ∧ marketWatchStore (settle 0 true (handleSave marked_AC)) !! "w1"
      = Some [item "B"; item "D"].
Proof.
  pose proof (bulk_delete_success marked_AC eq_refl ltac:(by vm_compute)) as H.
  cbv zeta in H. destruct H as (H1 & _ & _ & H4 & _ & _ & H7 & _).
  change (length (inflight marked_AC)) with 0 in *.
  split; [reflexivity|].
  split.
  { intros k. change (itemsToDelete (deleteMap marked_AC)) with ["C"; "A"].
    rewrite !elem_of_cons, elem_of_nil. tauto. }
  split; [rewrite H1; reflexivity|].
  split; [exact H7|].
  rewrite H4, lookup_insert_eq, H1. reflexivity.
Defined.

(** C4.  When the bulk delete fails, the collection, LastConfirmedOrder and
    the selection map are as before, the error modal shows the fixed
    message, the shared store is untouched, and the saving flag is released:
    with the selection still marked, the next [handleSave] passes the guard
    and issues a new remote call. *)
Theorem bulk_delete_failure (s : Sys) (n : nat) (wid : string)
    (captured : list MarketWatchItem) (items : list string) :
  inflight s !! n = Some (AwaitBulkDelete wid captured items) →
  let s' := settle n false s in
  stocks s' = stocks s
  ∧ lastOrderRef s' = lastOrderRef s
  ∧ deleteMap s' = deleteMap s
  ∧ errorModal s' =
      {| visible := true; title := "Error";
         message := "Failed to delete items" |}
  ∧ calls s' = calls s ++ [Call_console_error "Error deleting:"]
  ∧ marketWatchStore s' = marketWatchStore s
  ∧ isSaving s' = false
  ∧ (itemsToDelete (deleteMap s) ≠ [] →
     isSaving (handleSave s') = true
     ∧ calls (handleSave s') =
         calls s' ++ [Call_bulkDeleteFromWatchlist (watchlistId s)
                        (itemsToDelete (deleteMap s)) (username s)]
     ∧ inflight (handleSave s') =
         delete n (inflight s)
         ++ [AwaitBulkDelete (watchlistId s) (stocks s)
               (itemsToDelete (deleteMap s))]).
Proof.
  intros Hn s'. subst s'. rewrite (settle_lookup _ _ _ _ Hn). simpl.
  repeat (split; [done|]). intros Hne.
  rewrite handleSave_guard_passed by done. done.
Qed.

Lemma bulk_delete_failure_witness :
  stocks (settle 0 false saving_AC) = stocks saving_AC
  ∧ deleteMap (settle 0 false saving_AC) = deleteMap saving_AC
  ∧ message (errorModal (settle 0 false saving_AC)) = "Failed to delete items"
  ∧ isSaving (settle 0 false saving_AC) = false
  ∧ isSaving (handleSave (settle 0 false saving_AC)) = true.
Proof.
  pose proof (bulk_delete_failure saving_AC 0 "w1" (stocks marked_AC)
                (itemsToDelete (deleteMap marked_AC)) eq_refl) as H.
  cbv zeta in H. destruct H as (H1 & _ & H3 & H4 & _ & _ & H7 & H8).
  split; [exact H1|]. split; [exact H3|].
  split; [rewrite H4; reflexivity|]. split; [exact H7|].
  apply H8. by vm_compute.
Defined.

(** ** Lifecycle *)

(** C9.  The cleanup always cancels the deferred task (which then can no
    longer run), empties the collection and the selection map and lowers
    the ready flag.  After a cleanup, a new entry and the run of its
    deferred task, the selection map is empty and both the collection and
    LastConfirmedOrder come from the shared store alone, whatever the
    previous session had marked or ordered. *)
Theorem teardown_then_fresh_entry (s : Sys) (wid : string) :
  let s1 := cleanup s in
  let s2 := runTask (effect wid s1) in
  (task s1 = None
   ∧ step RunTask s1 = None
   ∧ calls s1 = calls s ++ [Call_task_cancel]
   ∧ stocks s1 = []
   ∧ deleteMap s1 = ∅
   ∧ isReady s1 = false)
  ∧ (deleteMap s2 = ∅
     ∧ stocks s2 = peekData wid s
     ∧ lastOrderRef s2 = tokensOf (peekData wid s)
     ∧ isReady s2 = true)
  ∧ (mounted s = true → run [Exit; Enter wid; RunTask] s = Some s2).
Proof.
  intros s1 s2. subst s1 s2. split; [done|]. split; [done|].
  intros Hm. simpl. by rewrite Hm.
Qed.

Lemma teardown_then_fresh_entry_witness :
  isMarked (deleteMap marked_AC) "A" = true
  ∧ run [Exit; Enter "w1"; RunTask] marked_AC = Some reopened_ABCD
  ∧ deleteMap reopened_ABCD = ∅
  ∧ lastOrderRef reopened_ABCD = ["A"; "B"; "C"; "D"].
Proof.
  pose proof (teardown_then_fresh_entry marked_AC "w1") as H.
  cbv zeta in H. destruct H as (_ & (H1 & _ & H3 & _) & H5).
  split; [reflexivity|]. split; [apply H5; reflexivity|].
  split; [exact H1|]. unfold reopened_ABCD. rewrite H3. reflexivity.
Defined.

(** ** The order baseline *)

Lemma baseline_ok_step e s s' : step e s = Some s' → baseline_ok s → baseline_ok s'.
Proof.
  unfold baseline_ok.
  destruct e as [wid| | |it|newOrder| | |n ok]; simpl; intros Hstep Hinv.
  - destruct (mounted s); simplify_eq. done.
  - unfold runTask in Hstep. destruct (task s); simplify_eq. by left.
  - destruct (mounted s); simplify_eq. by right.
  - simplify_eq. done.
  - simplify_eq. unfold onDragEnd.
    destruct (hasChanged _ _); [by left | done].
  - simplify_eq. unfold handleSave.
    destruct (isSaving s || _); done.
  - simplify_eq. done.
  - unfold settle in Hstep.
    destruct (inflight s !! n) as [[wid o|wid c items]|]; simplify_eq.
    + destruct ok; done.
    + destruct ok; [by left | done].
Qed.

Lemma baseline_ok_reachable s : Reachable s → baseline_ok s.
Proof.
  induction 1 as [store user|e s s' _ IH Hstep].
  - by left.
  - by eapply baseline_ok_step.
Qed.

(** C8, as stated, fails: once the screen that showed [A; B] has been torn
    down, no call is in flight, the collection is empty and
    LastConfirmedOrder still holds A and B. *)
Lemma teardown_keeps_stale_baseline :
  Reachable closed_AB
  ∧ inflight closed_AB = []
  ∧ stocks closed_AB = []
  ∧ lastOrderRef closed_AB = ["A"; "B"]
  ∧ list_to_set (lastOrderRef closed_AB)
      ≠@{gset string} list_to_set (tokensOf (stocks closed_AB)).
Proof.
  split.
  { apply (Reachable_step Exit loaded_AB); [|reflexivity].
    apply (Reachable_step RunTask (effect "w1" (initial store_AB "alice")));
      [|reflexivity].
    apply (Reachable_step (Enter "w1") (initial store_AB "alice"));
      [|reflexivity].
    constructor. }
  repeat (split; [reflexivity|]).
  change (lastOrderRef closed_AB) with ["A"; "B"].
  change (tokensOf (stocks closed_AB)) with (@nil string).
  intros H. assert ("A" ∈@{gset string} list_to_set []) as Hin.
  { rewrite <- H. set_solver. }
  set_solver.
Qed.

(** C8, amended.  At every reachable state in which the ready flag is up,
    LastConfirmedOrder is the token sequence of the collection, so the two
    have the same identity set; and every event other than the teardown
    (entry, initial load, toggle, reorder, save, a remote call settling)
    keeps LastConfirmedOrder equal to the token sequence of the
    collection. *)
Theorem baseline_matches_collection :
  (∀ s, Reachable s → isReady s = true →
     lastOrderRef s = tokensOf (stocks s)
     ∧ list_to_set (lastOrderRef s)
         =@{gset string} list_to_set (tokensOf (stocks s)))
  ∧ (∀ e s s', e ≠ Exit → step e s = Some s' →
       lastOrderRef s = tokensOf (stocks s) →
       lastOrderRef s' = tokensOf (stocks s')).
Proof.
  split.
  - intros s Hr Hready.
    destruct (baseline_ok_reachable s Hr) as [Heq|[_ Hnr]]; [|congruence].
    by rewrite Heq.
  - intros e s s' Hne Hstep Heq.
    destruct e as [wid| | |it|newOrder| | |n ok]; simpl in Hstep.
    + destruct (mounted s); simplify_eq. done.
    + unfold runTask in Hstep. destruct (task s); simplify_eq. done.
    + done.
    + simplify_eq. done.
    + simplify_eq. unfold onDragEnd. destruct (hasChanged _ _); done.
    + simplify_eq. unfold handleSave. destruct (isSaving s || _); done.
    + simplify_eq. done.
    + unfold settle in Hstep.
      destruct (inflight s !! n) as [[wid o|wid c items]|]; simplify_eq;
        destruct ok; done.
Qed.

Lemma baseline_matches_collection_witness :
  lastOrderRef dragged_BA = tokensOf (stocks dragged_BA)
  ∧ lastOrderRef (settle 0 true saving_AC)
      = tokensOf (stocks (settle 0 true saving_AC)).
Proof.
  destruct baseline_matches_collection as [Hinv Hstep].
  split.
  - apply Hinv; [|reflexivity].
    apply (Reachable_step (DragEnd [item "B"; item "A"]) loaded_AB);
      [|reflexivity].
    apply (Reachable_step RunTask (effect "w1" (initial store_AB "alice")));
      [|reflexivity].
    apply (Reachable_step (Enter "w1") (initial store_AB "alice"));
      [|reflexivity].
    constructor.
  - apply (Hstep (Settle 0 true) saving_AC);
      [discriminate | reflexivity | reflexivity].
Defined.

(** * Further properties of the screen *)

(** ** Rows *)

Lemma arePropsEqual_true {Theme : Type} `{EqDecision Theme}
    (prevProps nextProps : DeleteRowProps Theme) :
  arePropsEqual prevProps nextProps = true
  ↔ token (row_item prevProps) = token (row_item nextProps)
    ∧ row_isMarked prevProps = row_isMarked nextProps
    ∧ row_theme prevProps = row_theme nextProps.
Proof.
  unfold arePropsEqual.
  rewrite !andb_true_iff, !bool_decide_eq_true. tauto.
Qed.

Lemma tokenOf_token a b : token a = token b → tokenOf a = tokenOf b.
Proof. unfold tokenOf. by intros ->. Qed.

(** X1.  Although the comparison of [memo] ignores [onToggle], the row
    that stays on screen always has the callback and the mark of a row
    rendered afresh; pressed on the current map it flips the mark of its
    identity, and pressed again before it is rendered again it writes the
    same value a second time. *)
Theorem memoised_row_toggles_like_fresh {Theme : Type} `{EqDecision Theme}
    (it1 it2 : MarketWatchItem) (m1 m2 : gmap string bool) (th1 th2 : Theme) :
  let shown := memo (DeleteRowObserver it1 m1 th1) (DeleteRowObserver it2 m2 th2) in
  (∀ m, row_onToggle shown m = row_onToggle (DeleteRowObserver it2 m2 th2) m)
  ∧ row_isMarked shown = isMarked m2 (tokenOf it2)
  ∧ row_onToggle shown m2 = toggle (tokenOf it2) m2
  ∧ row_onToggle shown (row_onToggle shown m2) = row_onToggle shown m2.
Proof.
  intros shown.
  assert (Hfun : ∀ m, row_onToggle shown m
                      = rowToggle (tokenOf it2) (isMarked m2 (tokenOf it2)) m).
  { intros m. subst shown. unfold memo.
    destruct (arePropsEqual _ _) eqn:E; [|done].
    apply arePropsEqual_true in E as (Ht & Hm & _). simpl in *.
    by rewrite Hm, (tokenOf_token _ _ Ht). }
  split; [done|]. split.
  { subst shown. unfold memo. destruct (arePropsEqual _ _) eqn:E; [|done].
    by apply arePropsEqual_true in E as (_ & Hm & _). }
  split; [by rewrite Hfun|].
  rewrite !Hfun. unfold rowToggle. apply insert_insert_eq.
Qed.

(** X2.  The comparison of [memo] looks at the token, the mark and the
    theme only: when an item comes back with another symbol or name, the
    row on screen keeps the old props, and so the old symbol and name. *)
Theorem memoised_row_keeps_old_text {Theme : Type} `{EqDecision Theme}
    (it : MarketWatchItem) (sy nm : option string) (m : gmap string bool)
    (th : Theme) :
  let it' := {| token := token it; symbol := sy; name := nm |} in
  let shown := memo (DeleteRowObserver it m th) (DeleteRowObserver it' m th) in
  shown = DeleteRowObserver it m th
  ∧ rowSymbol (row_item shown) = rowSymbol it
  ∧ rowName (row_item shown) = rowName it.
Proof.
  intros it' shown.
  assert (shown = DeleteRowObserver it m th) as ->; [|done].
  subst shown. unfold memo.
  destruct (arePropsEqual _ _) eqn:E; [done|].
  apply not_true_iff_false in E. exfalso. apply E.
  apply arePropsEqual_true. done.
Qed.

(** ** More on the selection map *)

(** X3.  Marking an identity adds exactly one to the count; unmarking a
    marked identity takes exactly one away, and the count was positive. *)
Theorem toggle_moves_count_by_one (m : gmap string bool) (k : string) :
  (isMarked m k = false → selectedCount (toggle k m) = S (selectedCount m))
  ∧ (isMarked m k = true → S (selectedCount (toggle k m)) = selectedCount m).
Proof.
  rewrite selectedCount_toggle. split; intros E; rewrite E; [done|].
  assert (k ∈ itemsToDelete m) as Hin
    by (by apply elem_of_itemsToDelete, isMarked_true).
  rewrite selectedCount_itemsToDelete.
  destruct (itemsToDelete m); [by apply elem_of_nil in Hin | done].
Qed.

Lemma toggle_moves_count_by_one_witness :
  selectedCount (toggle "A" ∅) = 1
  ∧ selectedCount (toggle "A" {[ "A" := true ]}) = 0.
Proof.
  split.
  - pose proof (proj1 (toggle_moves_count_by_one ∅ "A")) as H.
    rewrite H; reflexivity.
  - pose proof (proj2 (toggle_moves_count_by_one {[ "A" := true ]} "A")) as H.
    assert (isMarked {[ "A" := true ]} "A" = true) as E by reflexivity.
    apply H in E.
    assert (selectedCount {[ "A" := true ]} = 1) as E1 by reflexivity.
    rewrite E1 in E. lia.
Defined.

(** X4.  Toggles of two different identities commute, and rows whose items
    have the same token (for instance two items without a token) share one
    mark: toggling either one is the same write. *)
Theorem toggle_commutes_and_shares_keys (m : gmap string bool) :
  (∀ k1 k2, k1 ≠ k2 → toggle k1 (toggle k2 m) = toggle k2 (toggle k1 m))
  ∧ (∀ a b : MarketWatchItem, tokenOf a = tokenOf b →
       toggle (tokenOf a) m = toggle (tokenOf b) m
       ∧ isMarked (toggle (tokenOf a) m) (tokenOf b)
           = negb (isMarked m (tokenOf b)))
  ∧ (∀ a b : MarketWatchItem, token a = None → token b = None →
       tokenOf a = tokenOf b).
Proof.
  split; [|split].
  - intros k1 k2 Hne. unfold toggle, isMarked.
    rewrite !lookup_insert_ne by done. by apply insert_insert_ne.
  - intros a b Hab. rewrite Hab. split; [done | apply isMarked_toggle].
  - intros a b Ha Hb. unfold tokenOf. by rewrite Ha, Hb.
Qed.

Lemma toggle_commutes_and_shares_keys_witness :
  toggle "A" (toggle "B" ∅) = (toggle "B" (toggle "A" ∅) : gmap string bool)
  ∧ isMarked
      (toggle (tokenOf {| token := None; symbol := Some "X"; name := None |}) ∅)
      (tokenOf {| token := None; symbol := Some "Y"; name := None |}) = true.
Proof.
  destruct (toggle_commutes_and_shares_keys ∅) as (H1 & H2 & H3).
  split; [apply H1; discriminate|].
  rewrite (proj2 (H2 _ _ (H3 {| token := None; symbol := Some "X"; name := None |}
                            {| token := None; symbol := Some "Y"; name := None |}
                            eq_refl eq_refl))).
  reflexivity.
Defined.

Lemma memoised_row_toggles_like_fresh_witness :
  row_onToggle
    (memo (DeleteRowObserver (item "A") ∅ 0)
          (DeleteRowObserver (item "A") (∅ : gmap string bool) 0)) ∅
  = toggle "A" ∅.
Proof.
  exact (proj1 (proj2 (proj2
    (memoised_row_toggles_like_fresh (item "A") (item "A") ∅ ∅ 0 0)))).
Defined.

Lemma memoised_row_keeps_old_text_witness :
  rowSymbol
    (row_item
       (memo (DeleteRowObserver (item "A") (∅ : gmap string bool) 0)
             (DeleteRowObserver
                {| token := Some "A"; symbol := Some "A2"; name := None |}
                ∅ 0)))
  = "A".
Proof.
  exact (proj1 (proj2
    (memoised_row_keeps_old_text (item "A") (Some "A2") None ∅ 0))).
Defined.

(** ** What is shown and what the handlers accept *)

Lemma snoc_neq {A} (l : list A) (x : A) : l ++ [x] ≠ l.
Proof.
  intros H. apply (f_equal length) in H. rewrite length_app in H.
  simpl in H. lia.
Qed.

Lemma onDragEnd_noop_iff s newOrder :
  onDragEnd newOrder s = s
  ↔ hasChanged (tokensOf newOrder) (lastOrderRef s) = false.
Proof.
  split; [|apply onDragEnd_unchanged].
  destruct (hasChanged _ _) eqn:E; [|done].
  rewrite (onDragEnd_changed _ _ E). intros H.
  apply (f_equal calls) in H. simpl in H. by apply snoc_neq in H.
Qed.

Lemma handleSave_noop_iff s :
  handleSave s = s ↔ isSaving s = true ∨ itemsToDelete (deleteMap s) = [].
Proof.
  split.
  - destruct (isSaving s) eqn:Hs; [by left|].
    destruct (itemsToDelete (deleteMap s)) as [|k l] eqn:Hi; [by right|].
    rewrite handleSave_guard_passed by (by rewrite ?Hi). intros H.
    apply (f_equal isSaving) in H. simpl in H. congruence.
  - intros [Hs|He]; unfold handleSave.
    + by rewrite Hs.
    + rewrite He. simpl. by rewrite orb_true_r.
Qed.

Lemma header_None s : header s = None ↔ itemsToDelete (deleteMap s) = [].
Proof.
  unfold header. rewrite selectedCount_itemsToDelete.
  destruct (itemsToDelete (deleteMap s)); simpl; done.
Qed.

Lemma body_Grid s data :
  body s = Grid data ↔ isReady s = true ∧ data = stocks s ∧ stocks s ≠ [].
Proof.
  unfold body. destruct (isReady s); simpl.
  - destruct (stocks s) as [|x l]; simpl.
    + split; [done | intros (_ & _ & H); done].
    + split; [intros [= <-]; done | intros (_ & -> & _); done].
  - split; [done | intros [H _]; done].
Qed.

Lemma Reachable_run es s s' : Reachable s → run es s = Some s' → Reachable s'.
Proof.
  revert s. induction es as [|e es IH]; intros s Hr Hrun; simpl in Hrun.
  - by simplify_eq.
  - destruct (step e s) as [s1|] eqn:E; [|done].
    eapply IH; [|done]. by eapply Reachable_step.
Qed.

(** X5.  The save button and the guard of [handleSave] agree: the button
    is absent exactly when no identity is marked, [handleSave] does nothing
    exactly when the button is absent or disabled, and a press on a button
    that is shown and not disabled always raises the saving flag and issues
    the bulk delete. *)
Theorem save_button_matches_guard (s : Sys) :
  (header s = None ↔ ∀ k, isMarked (deleteMap s) k = false)
  ∧ (handleSave s = s ↔ header s = None ∨ isSaving s = true)
  ∧ (∀ b, header s = Some b → disabled b = false →
       isSaving (handleSave s) = true
       ∧ calls (handleSave s) =
           calls s ++ [Call_bulkDeleteFromWatchlist (watchlistId s)
                         (itemsToDelete (deleteMap s)) (username s)]).
Proof.
  split; [|split].
  - rewrite header_None, itemsToDelete_nil. split; intros H k.
    + apply not_true_iff_false. rewrite isMarked_true. apply H.
    + rewrite <- isMarked_true, H. done.
  - rewrite handleSave_noop_iff, header_None. tauto.
  - intros b Hb Hd.
    assert (isSaving s = false) as Hs.
    { unfold header in Hb. destruct (0 <? _)%nat; simplify_eq. done. }
    assert (itemsToDelete (deleteMap s) ≠ []) as Hne.
    { intros He. apply header_None in He. congruence. }
    by rewrite (handleSave_guard_passed _ Hs Hne).
Qed.

Lemma save_button_matches_guard_witness :
  header marked_AC = Some {| disabled := false; label := "Save" |}
  ∧ isSaving (handleSave marked_AC) = true
  ∧ header (handleSave marked_AC)
      = Some {| disabled := true; label := "Saving..." |}.
Proof.
  destruct (save_button_matches_guard marked_AC) as (_ & _ & H).
  split; [reflexivity|]. split; [|reflexivity].
  apply (H {| disabled := false; label := "Save" |}); reflexivity.
Defined.

(** X6.  Whenever the grid is on screen in a reachable state, the baseline
    is the token sequence of the displayed items; so for a candidate with
    as many items as the grid, [onDragEnd] does nothing exactly when the
    candidate has the displayed tokens in the displayed order. *)
Theorem drag_on_grid_noop_iff_same_tokens (s : Sys)
    (newOrder data : list MarketWatchItem) :
  Reachable s → body s = Grid data → length newOrder = length data →
  lastOrderRef s = tokensOf data
  ∧ (onDragEnd newOrder s = s ↔ tokensOf newOrder = tokensOf data).
Proof.
  intros Hr Hb Hlen. apply body_Grid in Hb as (Hready & -> & _).
  assert (lastOrderRef s = tokensOf (stocks s)) as Hbase.
  { destruct (baseline_ok_reachable s Hr) as [?|[_ ?]]; [done | congruence]. }
  split; [done|]. rewrite onDragEnd_noop_iff, Hbase, hasChanged_false_iff.
  split.
  - intros Hp. apply prefix_length_eq; [done|].
    unfold tokensOf. rewrite !length_fmap. lia.
  - by intros ->.
Qed.

Lemma Reachable_loaded_AB : Reachable loaded_AB.
Proof.
  apply (Reachable_run [Enter "w1"; RunTask] (initial store_AB "alice"));
    [constructor | reflexivity].
Qed.

Lemma drag_on_grid_noop_iff_same_tokens_witness :
  lastOrderRef loaded_AB = ["A"; "B"]
  ∧ onDragEnd [item "B"; item "A"] loaded_AB ≠ loaded_AB.
Proof.
  destruct (drag_on_grid_noop_iff_same_tokens loaded_AB
              [item "B"; item "A"] [item "A"; item "B"]
              Reachable_loaded_AB eq_refl eq_refl) as [H1 H2].
  split; [exact H1|]. intros H. apply H2 in H. discriminate H.
Defined.

(** X7.  When the deferred task runs, the screen shows the items that the
    shared store holds for the watchlist, and "No items" when it holds none
    or does not know the watchlist; the baseline is their token sequence
    either way. *)
Theorem load_shows_store_contents (s : Sys) (wid : string) :
  task s = Some wid →
  let s' := runTask s in
  body s' = match peekData wid s with
            | [] => NoItems
            | _ :: _ => Grid (peekData wid s)
            end
  ∧ lastOrderRef s' = tokensOf (peekData wid s)
  ∧ (marketWatchStore s !! wid = None →
     body s' = NoItems ∧ stocks s' = [] ∧ lastOrderRef s' = []).
Proof.
  intros Ht s'. subst s'. unfold runTask. rewrite Ht. unfold body. simpl.
  split; [by destruct (peekData wid s)|]. split; [done|].
  intros Hnone. unfold peekData. by rewrite Hnone.
Qed.

Lemma load_shows_store_contents_witness :
  body (runTask (effect "w2" (initial store_AB "alice"))) = NoItems
  ∧ body (runTask (effect "w1" (initial store_AB "alice")))
      = Grid [item "A"; item "B"].
Proof.
  split.
  - apply (load_shows_store_contents (effect "w2" (initial store_AB "alice"))
             "w2" eq_refl).
    reflexivity.
  - rewrite (proj1 (load_shows_store_contents
                      (effect "w1" (initial store_AB "alice")) "w1" eq_refl)).
    reflexivity.
Defined.

Lemma ready_or_unmarked_step e s s' :
  ui_enabled e s = true → step e s = Some s' →
  (isReady s = false → deleteMap s = ∅) →
  (isReady s' = false → deleteMap s' = ∅).
Proof.
  destruct e as [wid| | |it|newOrder| | |n ok]; simpl; intros Hen Hstep Hinv.
  - destruct (mounted s); simplify_eq. done.
  - unfold runTask in Hstep. destruct (task s); simplify_eq. done.
  - destruct (mounted s); simplify_eq. done.
  - simplify_eq. simpl. intros Hr. exfalso.
    apply andb_true_iff in Hen as [_ Hen]. unfold body in Hen.
    rewrite Hr in Hen. done.
  - simplify_eq. unfold onDragEnd. destruct (hasChanged _ _); done.
  - simplify_eq. unfold handleSave. destruct (isSaving s || _); done.
  - simplify_eq. done.
  - unfold settle in Hstep.
    destruct (inflight s !! n) as [[wid o|wid c items]|]; simplify_eq;
      destruct ok; done.
Qed.

(** X8.  With the events that the rendered screen can deliver, no mark
    exists while the list is not ready: the save button is never shown
    together with "Loading...". *)
Theorem no_save_button_while_loading (s : Sys) :
  UiReachable s → body s = Loading → deleteMap s = ∅ ∧ header s = None.
Proof.
  intros Hr Hb.
  assert (isReady s = false → deleteMap s = ∅) as Hinv.
  { clear Hb. induction Hr as [store user|e s s' _ IH Hen Hstep]; [done|].
    by eapply ready_or_unmarked_step. }
  assert (isReady s = false) as Hnr.
  { unfold body in Hb. destruct (isReady s); [|done]. simpl in Hb.
    destruct (length (stocks s) =? 0)%nat; done. }
  split; [by apply Hinv|]. unfold header. by rewrite (Hinv Hnr).
Qed.

Lemma no_save_button_while_loading_witness :
  header (cleanup marked_AC) = None.
Proof.
  apply (no_save_button_while_loading (cleanup marked_AC)); [|reflexivity].
  apply (UiReachable_step Exit marked_AC); [|reflexivity..].
  apply (UiReachable_step (Toggle (item "C"))
           (set_deleteMap (toggle "A" (deleteMap loaded_ABCD)) loaded_ABCD));
    [|reflexivity..].
  apply (UiReachable_step (Toggle (item "A")) loaded_ABCD); [|reflexivity..].
  apply (UiReachable_step RunTask (effect "w1" (initial store_ABCD "alice")));
    [|reflexivity..].
  apply (UiReachable_step (Enter "w1") (initial store_ABCD "alice"));
    [|reflexivity..].
  constructor.
Defined.

(** ** Invariants of the calls *)

Section Counting.
Context {A : Type} (P : A → Prop) `{∀ x, Decision (P x)}.

Lemma length_filter_snoc (l : list A) (x : A) :
  length (filter P (l ++ [x]))
  = length (filter P l) + (if decide (P x) then 1 else 0).
Proof.
  rewrite filter_app, length_app. f_equal.
  rewrite filter_cons, filter_nil. by destruct (decide (P x)).
Qed.

Lemma length_filter_delete (l : list A) (n : nat) (x : A) :
  l !! n = Some x →
  length (filter P l)
  = length (filter P (delete n l)) + (if decide (P x) then 1 else 0).
Proof.
  revert n. induction l as [|y l IH]; intros [|n] Hn; simplify_eq/=.
  - rewrite filter_cons. destruct (decide (P x)); simpl; lia.
  - rewrite !filter_cons. specialize (IH n Hn).
    destruct (decide (P y)); simpl; lia.
Qed.

Lemma filter_nonempty_lookup (l : list A) :
  0 < length (filter P l) → ∃ n x, l !! n = Some x ∧ P x.
Proof.
  destruct (filter P l) as [|x l'] eqn:E; simpl; [lia|]. intros _.
  assert (x ∈ filter P l) as Hin by (rewrite E; by left).
  apply list_elem_of_filter in Hin as [HP Hin].
  apply list_elem_of_lookup in Hin as [n Hn]. eauto.
Qed.
End Counting.

Lemma length_delete_lookup {A} (l : list A) (n : nat) (x : A) :
  l !! n = Some x → length l = S (length (delete n l)).
Proof.
  intros Hn. rewrite length_delete by eauto.
  apply lookup_lt_Some in Hn. lia.
Qed.

Lemma bulkInFlight_snoc l f :
  bulkInFlight (l ++ [f]) = bulkInFlight l + (if isBulkDelete f then 1 else 0).
Proof.
  unfold bulkInFlight. rewrite length_filter_snoc.
  destruct (isBulkDelete f); by case_decide.
Qed.

Lemma bulkInFlight_delete l n f :
  l !! n = Some f →
  bulkInFlight l
  = bulkInFlight (delete n l) + (if isBulkDelete f then 1 else 0).
Proof.
  intros Hn. unfold bulkInFlight.
  rewrite (length_filter_delete _ _ _ _ Hn).
  destruct (isBulkDelete f); by case_decide.
Qed.

Lemma countCalls_snoc p cs c :
  countCalls p (cs ++ [c]) = countCalls p cs + (if p c then 1 else 0).
Proof.
  unfold countCalls. rewrite length_filter_snoc.
  destruct (p c); by case_decide.
Qed.

Lemma saving_flag_step e s s' :
  step e s = Some s' →
  bulkInFlight (inflight s) = (if isSaving s then 1 else 0) →
  bulkInFlight (inflight s') = (if isSaving s' then 1 else 0).
Proof.
  destruct e as [wid| | |it|newOrder| | |n ok]; simpl; intros Hstep Hinv.
  - destruct (mounted s); simplify_eq. done.
  - unfold runTask in Hstep. destruct (task s); simplify_eq. done.
  - destruct (mounted s); simplify_eq. done.
  - simplify_eq. done.
  - simplify_eq. unfold onDragEnd. destruct (hasChanged _ _); [|done].
    simpl. rewrite bulkInFlight_snoc. simpl. lia.
  - simplify_eq. destruct (isSaving s) eqn:Hs.
    + rewrite (proj2 (handleSave_noop_iff s)) by (by left). by rewrite Hs.
    + destruct (itemsToDelete (deleteMap s)) as [|k l] eqn:Hi.
      * rewrite (proj2 (handleSave_noop_iff s)) by (by right). by rewrite Hs.
      * rewrite handleSave_guard_passed by (by rewrite ?Hi).
        simpl. rewrite bulkInFlight_snoc. simpl. lia.
  - simplify_eq. done.
  - destruct (inflight s !! n) as [f|] eqn:Hn; simplify_eq.
    rewrite (settle_lookup _ _ _ _ Hn).
    pose proof (bulkInFlight_delete _ _ _ Hn) as Hd.
    destruct f as [wid o|wid c items]; simpl in *.
    + destruct ok; simpl; lia.
    + destruct (isSaving s); [|lia]. destruct ok; simpl; lia.
Qed.

Lemma saving_flag_reachable s :
  Reachable s → bulkInFlight (inflight s) = (if isSaving s then 1 else 0).
Proof.
  induction 1 as [store user|e s s' _ IH Hstep]; [done|].
  by eapply saving_flag_step.
Qed.

(** X9.  In every reachable state at most one bulk delete is in flight, and
    the saving flag is up exactly while one is; so a raised flag can always
    be released: the call that holds it is in flight, and as soon as it
    settles, with either outcome, the flag is down. *)
Theorem saving_flag_tracks_the_bulk_delete (s : Sys) :
  Reachable s →
  bulkInFlight (inflight s) = (if isSaving s then 1 else 0)
  ∧ (isSaving s = true →
     ∃ n wid captured items,
       inflight s !! n = Some (AwaitBulkDelete wid captured items)
       ∧ ∀ ok, isSaving (settle n ok s) = false).
Proof.
  intros Hr. pose proof (saving_flag_reachable s Hr) as Hinv.
  split; [done|]. intros Hs. rewrite Hs in Hinv.
  destruct (filter_nonempty_lookup (λ f, isBulkDelete f = true) (inflight s))
    as (n & f & Hn & Hf).
  { unfold bulkInFlight in Hinv. lia. }
  destruct f as [wid o|wid c items]; [done|].
  exists n, wid, c, items. split; [done|]. intros ok.
  rewrite (settle_lookup _ _ _ _ Hn). by destruct ok.
Qed.

Lemma Reachable_saving_AC : Reachable saving_AC.
Proof.
  apply (Reachable_run
           [Enter "w1"; RunTask; Toggle (item "A"); Toggle (item "C"); Save]
           (initial store_ABCD "alice")); [constructor | reflexivity].
Qed.

Lemma saving_flag_tracks_the_bulk_delete_witness :
  isSaving saving_AC = true
  ∧ bulkInFlight (inflight saving_AC) = 1
  ∧ ∃ n, isSaving (settle n false saving_AC) = false.
Proof.
  destruct (saving_flag_tracks_the_bulk_delete saving_AC Reachable_saving_AC)
    as [H1 H2].
  split; [reflexivity|]. split; [exact H1|].
  destruct (H2 eq_refl) as (n & _ & _ & _ & _ & Hrel).
  exists n. apply Hrel.
Defined.

Lemma call_accounts_step e s s' :
  step e s = Some s' →
  countCalls isRemoteCall (calls s)
    = countCalls isSetData (calls s) + countCalls isConsoleError (calls s)
      + length (inflight s) →
  countCalls isRemoteCall (calls s')
    = countCalls isSetData (calls s') + countCalls isConsoleError (calls s')
      + length (inflight s').
Proof.
  destruct e as [wid| | |it|newOrder| | |n ok]; simpl; intros Hstep Hinv.
  - destruct (mounted s); simplify_eq. done.
  - unfold runTask in Hstep. destruct (task s); simplify_eq. done.
  - destruct (mounted s); simplify_eq. simpl.
    rewrite !countCalls_snoc. simpl. lia.
  - simplify_eq. done.
  - simplify_eq. unfold onDragEnd. destruct (hasChanged _ _); [|done].
    simpl. rewrite !countCalls_snoc, length_app. simpl. lia.
  - simplify_eq. unfold handleSave. destruct (isSaving s || _); [done|].
    simpl. rewrite !countCalls_snoc, length_app. simpl. lia.
  - simplify_eq. done.
  - destruct (inflight s !! n) as [f|] eqn:Hn; simplify_eq.
    rewrite (settle_lookup _ _ _ _ Hn).
    pose proof (length_delete_lookup _ _ _ Hn) as Hd.
    destruct f as [wid o|wid c items]; destruct ok; simpl;
      rewrite !countCalls_snoc; simpl; lia.
Qed.

Lemma bulk_accounts_step e s s' :
  step e s = Some s' →
  countCalls isBulkDeleteCall (calls s)
    = countCalls isGoBack (calls s) + countCalls isDeleteError (calls s)
      + bulkInFlight (inflight s) →
  countCalls isBulkDeleteCall (calls s')
    = countCalls isGoBack (calls s') + countCalls isDeleteError (calls s')
      + bulkInFlight (inflight s').
Proof.
  destruct e as [wid| | |it|newOrder| | |n ok]; simpl; intros Hstep Hinv.
  - destruct (mounted s); simplify_eq. done.
  - unfold runTask in Hstep. destruct (task s); simplify_eq. done.
  - destruct (mounted s); simplify_eq. simpl.
    rewrite !countCalls_snoc. simpl. lia.
  - simplify_eq. done.
  - simplify_eq. unfold onDragEnd. destruct (hasChanged _ _); [|done].
    simpl. rewrite !countCalls_snoc, bulkInFlight_snoc. simpl. lia.
  - simplify_eq. unfold handleSave. destruct (isSaving s || _); [done|].
    simpl. rewrite !countCalls_snoc, bulkInFlight_snoc. simpl. lia.
  - simplify_eq. done.
  - destruct (inflight s !! n) as [f|] eqn:Hn; simplify_eq.
    rewrite (settle_lookup _ _ _ _ Hn).
    pose proof (bulkInFlight_delete _ _ _ Hn) as Hd.
    destruct f as [wid o|wid c items]; destruct ok; simpl in *;
      rewrite !countCalls_snoc; simpl; lia.
Qed.

(** X10.  Every remote call that was issued is accounted for exactly once:
    it is still in flight, or it succeeded and was followed by one
    [setData], or it failed and left one line on the console.  For bulk
    deletes in particular, each one is in flight, or ended in one [goBack],
    or in one "Error deleting:" line. *)
Theorem remote_calls_accounted_for (s : Sys) :
  Reachable s →
  countCalls isRemoteCall (calls s)
    = countCalls isSetData (calls s) + countCalls isConsoleError (calls s)
      + length (inflight s)
  ∧ countCalls isBulkDeleteCall (calls s)
    = countCalls isGoBack (calls s) + countCalls isDeleteError (calls s)
      + bulkInFlight (inflight s).
Proof.
  induction 1 as [store user|e s s' _ [IH1 IH2] Hstep]; [done|].
  split; [by eapply call_accounts_step | by eapply bulk_accounts_step].
Qed.

Lemma remote_calls_accounted_for_witness :
  countCalls isRemoteCall (calls (settle 0 true saving_AC)) = 1
  ∧ countCalls isGoBack (calls (settle 0 true saving_AC)) = 1.
Proof.
  assert (Reachable (settle 0 true saving_AC)) as Hr.
  { apply (Reachable_step (Settle 0 true) saving_AC);
      [apply Reachable_saving_AC | reflexivity]. }
  destruct (remote_calls_accounted_for _ Hr) as [H1 H2].
  split; [rewrite H1; reflexivity|].
  change (countCalls isBulkDeleteCall (calls (settle 0 true saving_AC)))
    with 1 in H2.
  change (countCalls isDeleteError (calls (settle 0 true saving_AC)))
    with 0 in H2.
  change (bulkInFlight (inflight (settle 0 true saving_AC))) with 0 in H2.
  lia.
Defined.

Lemma modal_step e s s' :
  step e s = Some s' →
  (errorModal s = modal_closed
   ∨ errorModal s = modal_delete_failed
     ∧ 0 < countCalls isDeleteError (calls s)) →
  (errorModal s' = modal_closed
   ∨ errorModal s' = modal_delete_failed
     ∧ 0 < countCalls isDeleteError (calls s')).
Proof.
  destruct e as [wid| | |it|newOrder| | |n ok]; simpl; intros Hstep Hinv.
  - destruct (mounted s); simplify_eq. done.
  - unfold runTask in Hstep. destruct (task s); simplify_eq. done.
  - destruct (mounted s); simplify_eq. simpl.
    rewrite countCalls_snoc. simpl. rewrite Nat.add_0_r. done.
  - simplify_eq. done.
  - simplify_eq. unfold onDragEnd. destruct (hasChanged _ _); [|done].
    simpl. rewrite countCalls_snoc. simpl. rewrite Nat.add_0_r. done.
  - simplify_eq. unfold handleSave. destruct (isSaving s || _); [done|].
    simpl. rewrite countCalls_snoc. simpl. rewrite Nat.add_0_r. done.
  - simplify_eq. by left.
  - destruct (inflight s !! n) as [f|] eqn:Hn; simplify_eq.
    rewrite (settle_lookup _ _ _ _ Hn).
    destruct f as [wid o|wid c items]; destruct ok; simpl;
      rewrite !countCalls_snoc; simpl; rewrite ?Nat.add_0_r; try done.
    right. split; [done | lia].
Qed.

(** X11.  In every reachable state the error modal is either closed with
    empty texts or open with the title "Error" and the message "Failed to
    delete items"; it is open only after a bulk delete has failed and left
    its line on the console. *)
Theorem error_modal_only_for_failed_delete (s : Sys) :
  Reachable s →
  (errorModal s = modal_closed ∨ errorModal s = modal_delete_failed)
  ∧ (visible (errorModal s) = true →
     message (errorModal s) = "Failed to delete items"
     ∧ 0 < countCalls isDeleteError (calls s)).
Proof.
  intros Hr.
  assert (errorModal s = modal_closed
          ∨ errorModal s = modal_delete_failed
            ∧ 0 < countCalls isDeleteError (calls s)) as [Hc|[Hf Hn]].
  { induction Hr as [store user|e s s' _ IH Hstep]; [by left|].
    by eapply modal_step. }
  - split; [by left|]. rewrite Hc. done.
  - split; [by right|]. rewrite Hf. done.
Qed.

Lemma error_modal_only_for_failed_delete_witness :
  visible (errorModal (settle 0 false saving_AC)) = true
  ∧ message (errorModal (settle 0 false saving_AC)) = "Failed to delete items".
Proof.
  assert (Reachable (settle 0 false saving_AC)) as Hr.
  { apply (Reachable_step (Settle 0 false) saving_AC);
      [apply Reachable_saving_AC | reflexivity]. }
  destruct (error_modal_only_for_failed_delete _ Hr) as [_ H].
  split; [reflexivity|]. apply H. reflexivity.
Defined.

(** ** Calls that overlap *)

Lemma lookup_app_two_l {A} (l : list A) (a b : A) :
  (l ++ [a; b]) !! length l = Some a.
Proof. induction l; simpl; done. Qed.

Lemma lookup_app_two_r {A} (l : list A) (a b : A) :
  (l ++ [a; b]) !! S (length l) = Some b.
Proof. induction l; simpl; done. Qed.

Lemma delete_app_two_l {A} (l : list A) (a b : A) :
  delete (length l) (l ++ [a; b]) = l ++ [b].
Proof. induction l as [|x l IH]; simpl; [done | by rewrite IH]. Qed.

Lemma delete_app_two_r {A} (l : list A) (a b : A) :
  delete (S (length l)) (l ++ [a; b]) = l ++ [a].
Proof. induction l as [|x l IH]; simpl; [done | by rewrite IH]. Qed.

Lemma onDragEnd_twice s o1 o2 :
  hasChanged (tokensOf o1) (lastOrderRef s) = true →
  hasChanged (tokensOf o2) (tokensOf o1) = true →
  let s2 := onDragEnd o2 (onDragEnd o1 s) in
  stocks s2 = o2
  ∧ lastOrderRef s2 = tokensOf o2
  ∧ marketWatchStore s2 = marketWatchStore s
  ∧ inflight s2 =
      inflight s ++ [AwaitRearrange (watchlistId s) o1;
                     AwaitRearrange (watchlistId s) o2].
Proof.
  intros H1 H2 s2. subst s2. rewrite (onDragEnd_changed s o1 H1).
  rewrite onDragEnd_changed by done. simpl. by rewrite <- app_assoc.
Qed.

(** X12.  Rearrange calls are not ordered against each other.  After two
    drags whose calls are both in flight, the collection shows the second
    order whatever happens, and the shared store ends with the order of the
    call that settled last: the second order if they succeed in the order
    they were issued, the first (older) order if they succeed the other way
    round. *)
Theorem rearrange_last_settled_wins (s : Sys) (o1 o2 : list MarketWatchItem) :
  hasChanged (tokensOf o1) (lastOrderRef s) = true →
  hasChanged (tokensOf o2) (tokensOf o1) = true →
  let n := length (inflight s) in
  let s2 := onDragEnd o2 (onDragEnd o1 s) in
  let in_order := settle n true (settle n true s2) in
  let reversed := settle n true (settle (S n) true s2) in
  (stocks in_order = o2
   ∧ marketWatchStore in_order !! watchlistId s = Some o2)
  ∧ (stocks reversed = o2
     ∧ lastOrderRef reversed = tokensOf o2
     ∧ marketWatchStore reversed !! watchlistId s = Some o1
     ∧ inflight reversed = inflight s).
Proof.
  intros H1 H2 n s2 in_order reversed. subst n.
  destruct (onDragEnd_twice s o1 o2 H1 H2) as (Hst & Hlast & _ & Hfl).
  fold s2 in Hst, Hlast, Hfl.
  assert (watchlistId s2 = watchlistId s) as Hw.
  { subst s2. rewrite (onDragEnd_changed s o1 H1).
    by rewrite onDragEnd_changed by done. }
  split.
  - subst in_order.
    erewrite (settle_lookup s2 (length (inflight s)))
      by (rewrite Hfl; apply lookup_app_two_l).
    simpl. rewrite Hfl, delete_app_two_l.
    erewrite settle_lookup by (simpl; apply lookup_last_app).
    simpl. rewrite lookup_insert_eq. done.
  - subst reversed.
    erewrite (settle_lookup s2 (S (length (inflight s))))
      by (rewrite Hfl; apply lookup_app_two_r).
    simpl. rewrite Hfl, delete_app_two_r.
    erewrite settle_lookup by (simpl; apply lookup_last_app).
    simpl. rewrite lookup_insert_eq, delete_last_app. done.
Qed.

Lemma rearrange_last_settled_wins_witness :
  stocks (settle 0 true (settle 1 true
            (onDragEnd [item "A"; item "B"] dragged_BA)))
    = [item "A"; item "B"]
  ∧ marketWatchStore
      (settle 0 true (settle 1 true
         (onDragEnd [item "A"; item "B"] dragged_BA))) !! "w1"
    = Some [item "B"; item "A"].
Proof.
  pose proof (rearrange_last_settled_wins loaded_AB [item "B"; item "A"]
                [item "A"; item "B"] eq_refl eq_refl) as H.
  cbv zeta in H. destruct H as (_ & H1 & _ & H3 & _).
  split; [exact H1 | exact H3].
Defined.

(** X13.  [handleSave] filters the collection of the render in which it was
    invoked.  When a drag ends while the bulk delete is in flight, the
    success of the delete puts back the former order without the deleted
    items, locally and in the shared store; and when the rearrange call of
    that drag succeeds afterwards, it writes the dragged list, deleted items
    included, to the shared store. *)
Theorem bulk_delete_overwrites_midflight_reorder (s : Sys)
    (o : list MarketWatchItem) :
  isSaving s = false →
  itemsToDelete (deleteMap s) ≠ [] →
  hasChanged (tokensOf o) (lastOrderRef s) = true →
  let n := length (inflight s) in
  let survivors :=
    filter (λ it, tokenOf it ∉ itemsToDelete (deleteMap s)) (stocks s) in
  let s2 := onDragEnd o (handleSave s) in
  let s3 := settle n true s2 in
  let s4 := settle n true s3 in
  stocks s2 = o
  ∧ (stocks s3 = survivors
     ∧ lastOrderRef s3 = tokensOf survivors
     ∧ marketWatchStore s3 !! watchlistId s = Some survivors
     ∧ inflight s3 = inflight s ++ [AwaitRearrange (watchlistId s) o])
  ∧ (stocks s4 = survivors
     ∧ marketWatchStore s4 !! watchlistId s = Some o).
Proof.
  intros Hs Hne Hch n survivors s2 s3 s4. subst n.
  assert (s2 =
    set_inflight
      (inflight s ++ [AwaitBulkDelete (watchlistId s) (stocks s)
                        (itemsToDelete (deleteMap s));
                      AwaitRearrange (watchlistId s) o])
      (call (Call_rearrangeWatchlist (watchlistId s) (tokensOf o) (username s))
         (set_lastOrderRef (tokensOf o)
            (setStocks o
               (call (Call_bulkDeleteFromWatchlist (watchlistId s)
                        (itemsToDelete (deleteMap s)) (username s))
                  (setIsSaving true s)))))) as Hs2.
  { subst s2. rewrite (handleSave_guard_passed _ Hs Hne).
    rewrite onDragEnd_changed by done. simpl. by rewrite <- app_assoc. }
  split; [by rewrite Hs2|].
  assert (inflight s2 !! length (inflight s)
          = Some (AwaitBulkDelete (watchlistId s) (stocks s)
                    (itemsToDelete (deleteMap s)))) as Hn.
  { rewrite Hs2. simpl. apply lookup_app_two_l. }
  subst s4 s3. rewrite (settle_bulk_delete_ok _ _ _ _ _ Hn). fold survivors.
  rewrite Hs2. simpl. rewrite delete_app_two_l, lookup_insert_eq.
  split; [done|].
  erewrite settle_lookup by (simpl; apply lookup_last_app).
  simpl. by rewrite lookup_insert_eq.
Qed.

Lemma bulk_delete_overwrites_midflight_reorder_witness :
  stocks (settle 0 true
            (onDragEnd [item "D"; item "C"; item "B"; item "A"] saving_AC))
  = [item "B"; item "D"].
Proof.
  pose proof (bulk_delete_overwrites_midflight_reorder marked_AC
                [item "D"; item "C"; item "B"; item "A"]
                eq_refl ltac:(by vm_compute) eq_refl) as H.
  cbv zeta in H. destruct H as (_ & (H1 & _) & _).
  change (length (inflight marked_AC)) with 0 in H1.
  unfold saving_AC. rewrite H1. reflexivity.
Defined.

(** ** The snapshot of a bulk delete *)

Lemma set_deleteMap_same s : set_deleteMap (deleteMap s) s = s.
Proof. by destruct s. Qed.

Lemma run_toggles (its : list MarketWatchItem) (s : Sys) :
  ∃ m, run (Toggle <$> its) s = Some (set_deleteMap m s).
Proof.
  revert s. induction its as [|it its IH]; intros s.
  - exists (deleteMap s). simpl. by rewrite set_deleteMap_same.
  - destruct (IH (set_deleteMap (toggle (tokenOf it) (deleteMap s)) s))
      as [m Hm].
    exists m. rewrite fmap_cons.
    change (run (Toggle it :: (Toggle <$> its)) s)
      with (run (Toggle <$> its)
              (set_deleteMap (toggle (tokenOf it) (deleteMap s)) s)).
    by rewrite Hm.
Qed.

(** X14.  The identities to delete are fixed when [handleSave] is invoked.
    Whatever rows are toggled while the call is in flight, success removes
    exactly the identities of the snapshot and empties the selection map
    (marks made in the meantime are dropped, their items stay), and failure
    leaves the selection map as those toggles made it. *)
Theorem bulk_delete_snapshot_ignores_later_toggles (s s2 : Sys)
    (its : list MarketWatchItem) :
  isSaving s = false →
  itemsToDelete (deleteMap s) ≠ [] →
  run (Toggle <$> its) (handleSave s) = Some s2 →
  let n := length (inflight s) in
  (stocks (settle n true s2)
     = filter (λ it, tokenOf it ∉ itemsToDelete (deleteMap s)) (stocks s)
   ∧ deleteMap (settle n true s2) = ∅)
  ∧ (stocks (settle n false s2) = stocks s
     ∧ deleteMap (settle n false s2) = deleteMap s2).
Proof.
  intros Hs Hne Hrun n. subst n.
  destruct (run_toggles its (handleSave s)) as [m Hm].
  rewrite Hm in Hrun. simplify_eq.
  rewrite (handleSave_guard_passed _ Hs Hne).
  split.
  - erewrite settle_bulk_delete_ok by (simpl; apply lookup_last_app). done.
  - erewrite settle_lookup by (simpl; apply lookup_last_app). done.
Qed.

Lemma bulk_delete_snapshot_ignores_later_toggles_witness :
  stocks (settle 0 true
            (set_deleteMap (toggle "B" (deleteMap saving_AC)) saving_AC))
  = [item "B"; item "D"].
Proof.
  pose proof (bulk_delete_snapshot_ignores_later_toggles marked_AC
                (set_deleteMap (toggle "B" (deleteMap saving_AC)) saving_AC)
                [item "B"] eq_refl ltac:(by vm_compute) eq_refl) as H.
  cbv zeta in H. destruct H as [[H1 _] _].
  change (length (inflight marked_AC)) with 0 in H1.
  rewrite H1. reflexivity.
Defined.

Lemma length_filter_split {A} (P : A → Prop) `{∀ x, Decision (P x)}
    (l : list A) :
  length (filter (λ x, ¬ P x) l) + length (filter P l) = length l.
Proof.
  induction l as [|x l IH]; [done|]. rewrite !filter_cons.
  destruct (decide (P x)); destruct (decide (¬ P x)); simpl; try lia; tauto.
Qed.

(** X15.  A bulk delete removes identities, not rows: after its success no
    remaining item has an identity of the snapshot, two items of the
    captured collection with the same token (for instance two items without
    a token) stay or go together, and the collection is shorter by exactly
    the number of captured items whose identity was in the snapshot. *)
Theorem bulk_delete_removes_whole_identities (s : Sys) (n : nat)
    (wid : string) (captured : list MarketWatchItem) (items : list string) :
  inflight s !! n = Some (AwaitBulkDelete wid captured items) →
  let s' := settle n true s in
  (∀ it, it ∈ stocks s' → tokenOf it ∉ items)
  ∧ (∀ a b, a ∈ captured → b ∈ captured → tokenOf a = tokenOf b →
       (a ∈ stocks s' ↔ b ∈ stocks s'))
  ∧ length (stocks s') + length (filter (λ it, tokenOf it ∈ items) captured)
      = length captured.
Proof.
  intros Hn s'. subst s'. rewrite (settle_bulk_delete_ok _ _ _ _ _ Hn).
  simpl. split; [|split].
  - intros it Hin. by apply list_elem_of_filter in Hin as [? _].
  - intros a b Ha Hb Hab. rewrite !list_elem_of_filter, Hab. tauto.
  - apply (length_filter_split (λ it, tokenOf it ∈ items)).
Qed.

Lemma bulk_delete_removes_whole_identities_witness :
  length (stocks (settle 0 true saving_AC)) + 2 = 4.
Proof.
  pose proof (bulk_delete_removes_whole_identities saving_AC 0 "w1"
                (stocks marked_AC) (itemsToDelete (deleteMap marked_AC))
                eq_refl) as H.
  cbv zeta in H. destruct H as (_ & _ & H).
  exact H.
Defined.

(** X16.  When [handleSave] passes its guard it sends, in one call, exactly
    the identities whose mark is [true]: the list is not empty, has no
    identity twice, and holds no identity that is unmarked or explicitly
    [false]; the collection of that moment is what the continuation will
    filter. *)
Theorem bulk_delete_payload (s : Sys) :
  isSaving s = false →
  (∃ k, deleteMap s !! k = Some true) →
  ∃ items,
    calls (handleSave s)
      = calls s ++ [Call_bulkDeleteFromWatchlist (watchlistId s) items
                      (username s)]
    ∧ inflight (handleSave s)
      = inflight s ++ [AwaitBulkDelete (watchlistId s) (stocks s) items]
    ∧ items ≠ []
    ∧ NoDup items
    ∧ ∀ k, k ∈ items ↔ deleteMap s !! k = Some true.
Proof.
  intros Hs [k Hk]. exists (itemsToDelete (deleteMap s)).
  assert (itemsToDelete (deleteMap s) ≠ []) as Hne.
  { intros He. by apply (proj1 (itemsToDelete_nil _) He k). }
  rewrite (handleSave_guard_passed _ Hs Hne).
  repeat (split; [done|]).
  split; [apply NoDup_itemsToDelete | apply elem_of_itemsToDelete].
Qed.

Lemma bulk_delete_payload_witness :
  ∃ items,
    calls (handleSave marked_AC)
      = [Call_bulkDeleteFromWatchlist "w1" items "alice"]
    ∧ ("A" ∈ items ∧ "C" ∈ items ∧ "B" ∉ items).
Proof.
  destruct (bulk_delete_payload marked_AC eq_refl)
    as (items & Hc & _ & _ & _ & Hin).
  { exists "A". reflexivity. }
  exists items. split; [exact Hc|].
  rewrite !Hin. repeat split; [reflexivity..|]. discriminate.
Defined.

(** ** Calls that settle after the teardown *)

(** X17.  The cleanup cancels the deferred task only.  A remote call that
    was in flight before it still settles afterwards: a successful rearrange
    writes its order to the shared store, and a successful bulk delete puts
    the surviving items back into the collection that the cleanup had
    emptied, writes them to the shared store and calls [goBack]; the ready
    flag stays down, so the screen still shows "Loading...". *)
Theorem remote_calls_outlive_teardown (s : Sys) (n : nat) :
  inflight (cleanup s) = inflight s
  ∧ isSaving (cleanup s) = isSaving s
  ∧ (∀ wid newOrder,
       inflight s !! n = Some (AwaitRearrange wid newOrder) →
       marketWatchStore (settle n true (cleanup s)) !! wid = Some newOrder
       ∧ stocks (settle n true (cleanup s)) = [])
  ∧ (∀ wid captured items,
       inflight s !! n = Some (AwaitBulkDelete wid captured items) →
       let survivors := filter (λ it, tokenOf it ∉ items) captured in
       let s' := settle n true (cleanup s) in
       stocks s' = survivors
       ∧ lastOrderRef s' = tokensOf survivors
       ∧ marketWatchStore s' !! wid = Some survivors
       ∧ calls s' =
           calls s ++ [Call_task_cancel; Call_setData wid survivors; Call_goBack]
       ∧ body s' = Loading).
Proof.
  split; [done|]. split; [done|]. split.
  - intros wid newOrder Hn.
    erewrite settle_lookup by (simpl; exact Hn).
    simpl. by rewrite lookup_insert_eq.
  - intros wid captured items Hn survivors s'. subst s'.
    erewrite settle_bulk_delete_ok by (simpl; exact Hn).
    fold survivors. simpl. rewrite lookup_insert_eq, <- !app_assoc. done.
Qed.

Lemma remote_calls_outlive_teardown_witness :
  stocks (cleanup saving_AC) = []
  ∧ stocks (settle 0 true (cleanup saving_AC)) = [item "B"; item "D"]
  ∧ body (settle 0 true (cleanup saving_AC)) = Loading.
Proof.
  destruct (remote_calls_outlive_teardown saving_AC 0) as (_ & _ & _ & H).
  specialize (H "w1" (stocks marked_AC) (itemsToDelete (deleteMap marked_AC))
                eq_refl).
  cbv zeta in H. destruct H as (H1 & _ & _ & _ & H5).
  split; [reflexivity|]. split; [rewrite H1; reflexivity | exact H5].
Defined.

(** ** The deferred load *)

Lemma pending_task_step e s s' :
  step e s = Some s' →
  (∀ wid, task s = Some wid → mounted s = true ∧ wid = watchlistId s) →
  (∀ wid, task s' = Some wid → mounted s' = true ∧ wid = watchlistId s').
Proof.
  destruct e as [w| | |it|newOrder| | |n ok]; simpl; intros Hstep Hinv.
  - destruct (mounted s); simplify_eq. simpl. by intros wid [= ->].
  - unfold runTask in Hstep. destruct (task s); simplify_eq. done.
  - destruct (mounted s); simplify_eq. done.
  - simplify_eq. done.
  - simplify_eq. unfold onDragEnd. destruct (hasChanged _ _); done.
  - simplify_eq. unfold handleSave. destruct (isSaving s || _); done.
  - simplify_eq. done.
  - unfold settle in Hstep.
    destruct (inflight s !! n) as [[w o|w c items]|]; simplify_eq;
      destruct ok; done.
Qed.

(** X18.  In every reachable state a pending deferred task belongs to the
    watchlist the screen is open on: none is pending once the screen has
    been left, and when the task runs it loads the items that the shared
    store holds for the current watchlist. *)
Theorem pending_load_is_for_current_watchlist (s : Sys) (wid : string) :
  Reachable s → task s = Some wid →
  mounted s = true
  ∧ wid = watchlistId s
  ∧ stocks (runTask s) = peekData (watchlistId s) s
  ∧ lastOrderRef (runTask s) = tokensOf (peekData (watchlistId s) s).
Proof.
  intros Hr Ht.
  assert (mounted s = true ∧ wid = watchlistId s) as [Hm ->].
  { revert wid Ht. induction Hr as [store user|e s s' _ IH Hstep]; [done|].
    by eapply pending_task_step. }
  unfold runTask. rewrite Ht. done.
Qed.

Lemma pending_load_is_for_current_watchlist_witness :
  stocks (runTask (effect "w1" (initial store_AB "alice")))
  = [item "A"; item "B"].
Proof.
  assert (Reachable (effect "w1" (initial store_AB "alice"))) as Hr.
  { apply (Reachable_step (Enter "w1") (initial store_AB "alice"));
      [constructor | reflexivity]. }
  destruct (pending_load_is_for_current_watchlist _ "w1" Hr eq_refl)
    as (_ & _ & H & _).
  rewrite H. reflexivity.
Defined.

(** ** The two reconcilers on the rendered grid *)

Lemma hasChanged_same_length newTokens lastOrder :
  length newTokens = length lastOrder → newTokens ≠ lastOrder →
  hasChanged newTokens lastOrder = true.
Proof.
  intros Hlen Hne. apply not_false_iff_true. rewrite hasChanged_false_iff.
  intros Hp. apply Hne, prefix_length_eq; [done | lia].
Qed.

Lemma settle_rearrange_ok s n wid newOrder :
  inflight s !! n = Some (AwaitRearrange wid newOrder) →
  settle n true s = setData wid newOrder (set_inflight (delete n (inflight s)) s).
Proof. intros Hn. by rewrite (settle_lookup _ _ _ _ Hn). Qed.

(** C2.  On every reachable state that shows the grid, a candidate order
    (the displayed items in another order) that differs from
    LastConfirmedOrder at some position is applied at once: the collection
    and the grid show the candidate and LastConfirmedOrder holds its tokens
    while the rearrange call is still in flight and the shared store is
    still untouched.  Whenever that call succeeds, in whatever state the
    screen then is, the candidate items are written to the shared store and
    the local order is left alone. *)
Theorem onDragEnd_optimistic (s : Sys) (newOrder data : list MarketWatchItem)
    (i : nat) :
  Reachable s →
  body s = Grid data →
  newOrder ≡ₚ data →
  tokensOf newOrder !! i ≠ lastOrderRef s !! i →
  let s1 := onDragEnd newOrder s in
  (stocks s1 = newOrder
   ∧ body s1 = Grid newOrder
   ∧ lastOrderRef s1 = tokensOf newOrder
   ∧ inflight s1 = inflight s ++ [AwaitRearrange (watchlistId s) newOrder]
   ∧ calls s1 =
       calls s ++ [Call_rearrangeWatchlist (watchlistId s) (tokensOf newOrder)
                     (username s)]
   ∧ marketWatchStore s1 = marketWatchStore s)
  ∧ (∀ s' n,
       inflight s' !! n = Some (AwaitRearrange (watchlistId s) newOrder) →
       marketWatchStore (settle n true s')
         = <[watchlistId s := newOrder]> (marketWatchStore s')
       ∧ calls (settle n true s')
         = calls s' ++ [Call_setData (watchlistId s) newOrder]
       ∧ stocks (settle n true s') = stocks s'
       ∧ lastOrderRef (settle n true s') = lastOrderRef s').
Proof.
  intros Hr Hb Hperm Hi s1.
  apply body_Grid in Hb as (Hready & -> & Hne).
  assert (lastOrderRef s = tokensOf (stocks s)) as Hbase.
  { destruct (baseline_ok_reachable s Hr) as [?|[_ ?]]; [done | congruence]. }
  assert (length newOrder = length (stocks s)) as Hlen
    by (by apply Permutation_length).
  assert (hasChanged (tokensOf newOrder) (lastOrderRef s) = true) as Hch.
  { apply hasChanged_same_length.
    - rewrite Hbase. unfold tokensOf. by rewrite !length_fmap.
    - intros Heq. by rewrite Heq in Hi. }
  split.
  - subst s1. rewrite (onDragEnd_changed _ _ Hch).
    split; [done|]. split; [|done].
    unfold body. simpl. rewrite Hready. simpl.
    destruct newOrder as [|x l]; [|done].
    simpl in Hlen. by destruct (stocks s).
  - intros s' n Hn. by rewrite (settle_rearrange_ok _ _ _ _ Hn).
Qed.

Lemma onDragEnd_optimistic_witness :
  stocks dragged_BA = [item "B"; item "A"]
  ∧ body dragged_BA = Grid [item "B"; item "A"]
  ∧ lastOrderRef dragged_BA = ["B"; "A"]
  ∧ marketWatchStore dragged_BA !! "w1" = Some [item "A"; item "B"]
  ∧ marketWatchStore (settle 0 true dragged_BA) !! "w1"
      = Some [item "B"; item "A"].
Proof.
  pose proof (onDragEnd_optimistic loaded_AB [item "B"; item "A"]
                [item "A"; item "B"] 0 Reachable_loaded_AB eq_refl
                (perm_swap (item "A") (item "B") [])
                ltac:(discriminate)) as H.
  cbv zeta in H. destruct H as [(H1 & H2 & H3 & _ & _ & H6) Hok].
  split; [exact H1|]. split; [exact H2|]. split; [exact H3|].
  split; [unfold dragged_BA; rewrite H6; reflexivity|].
  destruct (Hok dragged_BA 0 eq_refl) as (Hstore & _).
  rewrite Hstore. apply lookup_insert_eq.
Defined.

(** C3, on the code.  [handleSave] removes the snapshot from the [stocks]
    that its closure captured, not from the collection of the moment the
    remote call succeeds.  With A and C marked in [A; B; C; D], the save
    button pressed and the rows then dragged into [D; C; B; A] while the
    call is in flight (all of it through the rendered screen), success
    leaves [B; D] in the collection and in the shared store, where removing
    A and C from the collection on screen would leave [D; B]. *)
Theorem bulk_delete_success_after_drag_uses_captured_stocks :
  UiReachable dragged_while_saving
  ∧ stocks dragged_while_saving = [item "D"; item "C"; item "B"; item "A"]
  ∧ inflight dragged_while_saving !! 0
      = Some (AwaitBulkDelete "w1" [item "A"; item "B"; item "C"; item "D"]
                (itemsToDelete (deleteMap marked_AC)))
  ∧ (∀ k, k ∈ itemsToDelete (deleteMap marked_AC) ↔ k = "A" ∨ k = "C")
  ∧ filter (λ it, tokenOf it ∉ itemsToDelete (deleteMap marked_AC))
      (stocks dragged_while_saving) = [item "D"; item "B"]
  ∧ stocks (settle 0 true dragged_while_saving) = [item "B"; item "D"]
  ∧ lastOrderRef (settle 0 true dragged_while_saving) = ["B"; "D"]
  ∧ marketWatchStore (settle 0 true dragged_while_saving) !! "w1"
      = Some [item "B"; item "D"].
Proof.
  split.
  { apply (UiReachable_step
             (DragEnd [item "D"; item "C"; item "B"; item "A"]) saving_AC);
      [|reflexivity..].
    apply (UiReachable_step Save marked_AC); [|reflexivity..].
    apply (UiReachable_step (Toggle (item "C"))
             (set_deleteMap (toggle "A" (deleteMap loaded_ABCD)) loaded_ABCD));
      [|reflexivity..].
    apply (UiReachable_step (Toggle (item "A")) loaded_ABCD); [|reflexivity..].
    apply (UiReachable_step RunTask (effect "w1" (initial store_ABCD "alice")));
      [|reflexivity..].
    apply (UiReachable_step (Enter "w1") (initial store_ABCD "alice"));
      [|reflexivity..].
    constructor. }
  split; [reflexivity|]. split; [reflexivity|].
  split.
  { intros k. change (itemsToDelete (deleteMap marked_AC)) with ["C"; "A"].
    rewrite !elem_of_cons, elem_of_nil. tauto. }
  split; [by vm_compute|]. split; [by vm_compute|].
  split; by vm_compute.
Qed.
